(** * US Treasury yield-curve viewer: the backend's ingestion, cache and query core

    A shallow embedding of [backend/index.js] and [backend/scheduler.js]:
    the month enumerator, the per-month fetch/parse chain, the aggregation
    with [Promise.all] and [flat], the two module-level cache variables, the
    three query handlers, the startup bootstrap and the hourly refresh.

    JavaScript numbers that the code uses as integers are [Z]; strings are
    [string] (code units below 256); a parsed CSV record (a JS object) is an
    association list holding its own keys in [Object.keys] order. *)

From Stdlib Require Import ZArith Lia Ascii.
From stdpp Require Import base decidable list strings pretty sorting.
From Equations Require Import Equations.

Local Open Scope Z_scope.

(** ** JavaScript built-ins used by the backend *)

Module JS.

(** [n.toString()] and template interpolation of an integer number. *)
Definition toString (n : Z) : string := pretty n.

Fixpoint fill (k : nat) (c : ascii) : string :=
  match k with
  | O => EmptyString
  | S k' => String c (fill k' c)
  end.

(** [s.padStart(target, c)] for a one-character pad string. *)
Definition padStart (target : nat) (c : ascii) (s : string) : string :=
  fill (target - String.length s) c +:+ s.

(** What the code reads from a [Date]: [getFullYear()] and [getMonth()]
    (0 = January .. 11 = December). *)
Record Date := mkDate { getFullYear : Z; getMonth : Z }.

(** A [Date] obtained from the clock always has its month in 0..11. *)
Definition valid_date (d : Date) : Prop := 0 <= getMonth d <= 11.

End JS.

Import JS.

(** ** Month enumerator ([getAllMonths], index.js 10-22) *)

(** [`${y}${(m + 1).toString().padStart(2, '0')}`] *)
Definition month_token (y m : Z) : string :=
  toString y +:+ padStart 2 "0" (toString (m + 1)).

(** The loop test [y < now.getFullYear() || (y === now.getFullYear() && m <= now.getMonth())]. *)
Definition months_cond (now : Date) (y m : Z) : bool :=
  bool_decide (y < getFullYear now) ||
  (bool_decide (y = getFullYear now) && bool_decide (m <= getMonth now)).

(** Iterations the [while] loop still has to run, at most. *)
Definition months_left (now : Date) (y m : Z) : nat :=
  Z.to_nat ((getFullYear now - y) * 12 + Z.max 0 (11 - m) + 1).

(** Remember the value of a test together with the equation it satisfies. *)
Definition inspect {A : Type} (a : A) : { b : A | a = b } := exist _ a eq_refl.

(** The [while] loop, with the array [months] it pushes to. *)
Equations? getAllMonths_while (now : Date) (y m : Z) (months : list string)
  : list string by wf (months_left now y m) lt :=
getAllMonths_while now y m months with inspect (months_cond now y m) := {
  | exist _ true _ with inspect (bool_decide (m + 1 > 11)) := {
      | exist _ true _ := getAllMonths_while now (y + 1) 0 (months ++ [month_token y m])
      | exist _ false _ := getAllMonths_while now y (m + 1) (months ++ [month_token y m]) }
  | exist _ false _ := months }.
Proof.
  all: unfold months_cond, months_left in *.
  all: repeat match goal with
       | H : bool_decide _ = true |- _ => apply bool_decide_eq_true in H
       | H : bool_decide _ = false |- _ => apply bool_decide_eq_false in H
       | H : _ || _ = true |- _ => apply orb_true_iff in H
       | H : _ && _ = true |- _ => apply andb_true_iff in H
       | H : _ ∧ _ |- _ => destruct H
       | H : _ ∨ _ |- _ => destruct H
       end; lia.
Qed.

(** [getAllMonths()], with the clock reading [new Date()] as argument;
    [new Date(2025, 0, 1)] has year 2025 and month 0. *)
Definition getAllMonths (now : Date) : list string :=
  let start := mkDate 2025 0 in
  getAllMonths_while now (getFullYear start) (getMonth start) [].

(** Months counted from year 0: the position of a calendar month on the
    time line. *)
Definition month_index (y m : Z) : Z := y * 12 + m.

(** The token of the calendar month at a position of the time line. *)
Definition token_at (i : Z) : string := month_token (i `div` 12) (i `mod` 12).

(** The number that a month part of two digits spells. *)
Definition month_part_value (s : string) : Z :=
  match s with
  | String a (String b EmptyString) =>
      (Z.of_N (N_of_ascii a) - 48) * 10 + (Z.of_N (N_of_ascii b) - 48)
  | _ => 0
  end.

(** Chronological order of two month tokens. *)
Definition token_before (s t : string) : Prop :=
  exists y m y' m', 0 <= m <= 11 /\ 0 <= m' <= 11 /\
    s = month_token y m /\ t = month_token y' m' /\
    month_index y m < month_index y' m'.

(** [makeCsvUrl(yyyymm)] (index.js 24-26). *)
Definition makeCsvUrl (yyyymm : string) : string :=
  "https://home.treasury.gov/resource-center/data-chart-center/interest-rates/daily-treasury-rates.csv/all/"
  +:+ yyyymm +:+ "?field_tdr_date_value_month=" +:+ yyyymm
  +:+ "&type=daily_treasury_yield_curve&page&_format=csv".

(** ** Regular expressions ([RegExp.prototype.test]) *)

Module RegExp.

(** The fragment of the pattern language that the backend's literal uses:
    character classes, sequence, alternation and repetition. *)
Inductive regex : Type :=
| Never
| Eps
| Class (p : ascii -> bool)
| Seq (r1 r2 : regex)
| Alt (r1 r2 : regex)
| Star (r : regex).

Definition Plus (r : regex) : regex := Seq r (Star r).

Fixpoint nullable (r : regex) : bool :=
  match r with
  | Never => false
  | Eps => true
  | Class _ => false
  | Seq r1 r2 => nullable r1 && nullable r2
  | Alt r1 r2 => nullable r1 || nullable r2
  | Star _ => true
  end.

(** What remains to be matched after reading [c]. *)
Fixpoint deriv (c : ascii) (r : regex) : regex :=
  match r with
  | Never => Never
  | Eps => Never
  | Class p => if p c then Eps else Never
  | Seq r1 r2 =>
      if nullable r1 then Alt (Seq (deriv c r1) r2) (deriv c r2)
      else Seq (deriv c r1) r2
  | Alt r1 r2 => Alt (deriv c r1) (deriv c r2)
  | Star r1 => Seq (deriv c r1) (Star r1)
  end.

(** The characters of a string. *)
Fixpoint chars (s : string) : list ascii :=
  match s with
  | EmptyString => []
  | String c s' => c :: chars s'
  end.

(** The strings a pattern denotes, as lists of characters. *)
Inductive lang : regex -> list ascii -> Prop :=
| lang_eps : lang Eps []
| lang_class p c : p c = true -> lang (Class p) [c]
| lang_seq r1 r2 s1 s2 : lang r1 s1 -> lang r2 s2 -> lang (Seq r1 r2) (s1 ++ s2)
| lang_alt_l r1 r2 s : lang r1 s -> lang (Alt r1 r2) s
| lang_alt_r r1 r2 s : lang r2 s -> lang (Alt r1 r2) s
| lang_star_nil r : lang (Star r) []
| lang_star_cons r s1 s2 : lang r s1 -> lang (Star r) s2 -> lang (Star r) (s1 ++ s2).

(** The whole string is a match of [r]. *)
Fixpoint matches (r : regex) (s : string) : bool :=
  match s with
  | EmptyString => nullable r
  | String c s' => matches (deriv c r) s'
  end.

Definition any : regex := Class (fun _ => true).

(** [r.test(s)]: some substring of [s] is a match of [r]. *)
Definition test (r : regex) (s : string) : bool :=
  matches (Seq (Star any) (Seq r (Star any))) s.

(** [\d] *)
Definition digit (c : ascii) : bool :=
  let n := N_of_ascii c in (48 <=? n)%N && (n <=? 57)%N.

(** [\s], for code units below 256: tab, line feed, vertical tab, form
    feed, carriage return, space and no-break space. *)
Definition space (c : ascii) : bool :=
  let n := N_of_ascii c in
  ((9 <=? n)%N && (n <=? 13)%N) || (n =? 32)%N || (n =? 160)%N.

(** A letter under the [i] flag: either case matches. *)
Definition letter_i (upper lower : ascii) (c : ascii) : bool :=
  bool_decide (c = upper) || bool_decide (c = lower).

(** The literal [/\d+\s*(Mo|YR)/i]. *)
Definition maturity_pattern : regex :=
  Seq (Plus (Class digit))
   (Seq (Star (Class space))
     (Alt (Seq (Class (letter_i "M" "m")) (Class (letter_i "O" "o")))
          (Seq (Class (letter_i "Y" "y")) (Class (letter_i "R" "r"))))).

End RegExp.

(** ** Data model *)

(** A record produced by the CSV parser with [columns: true]: a JS object
    from column name to cell text, its keys in [Object.keys] order. *)
Definition Row : Type := list (string * string).
Definition Dataset : Type := list Row.

(** A value read from a record: [None] is [undefined]. *)
Definition Cell : Type := option string.

Module Obj.

(** [record[key]] *)
Fixpoint get (record : Row) (key : string) : Cell :=
  match record with
  | [] => None
  | (k, v) :: rest => if bool_decide (k = key) then Some v else get rest key
  end.

(** [Object.keys(record)] *)
Definition keys (record : Row) : list string := record.*1.

End Obj.

(** ** Sets and arrays *)

Module Arr.

(** [set.add(x)] on a [Set], which keeps insertion order and ignores a
    value it already holds. *)
Definition Set_add {A} `{EqDecision A} (set : list A) (x : A) : list A :=
  if bool_decide (x ∈ set) then set else set ++ [x].

(** [Array.from(new Set(xs))] *)
Definition from_Set {A} `{EqDecision A} (xs : list A) : list A :=
  foldl Set_add [] xs.

(** [arrays.flat()] on an array of arrays of records. *)
Definition flat {A} (arrays : list (list A)) : list A := concat arrays.

(** [xs.find(p)] *)
Definition find {A} (p : A -> bool) (xs : list A) : option A := List.find p xs.

End Arr.

(** Position of the first occurrence of [a] in [l] ([length l] if none). *)
Fixpoint first_pos {A} `{EqDecision A} (a : A) (l : list A) : nat :=
  match l with
  | [] => O
  | x :: l' => if bool_decide (x = a) then O else S (first_pos a l')
  end.

(** What a [Set] under construction knows about the values seen so far: it
    holds each of them once, in the order of their first occurrences. *)
Definition first_seen_order {A} `{EqDecision A} (set seen : list A) : Prop :=
  NoDup set
  /\ (forall a, a ∈ set <-> a ∈ seen)
  /\ (forall i j a b, set !! i = Some a -> set !! j = Some b -> (i < j)%nat ->
        (first_pos a seen < first_pos b seen)%nat).

(** ** Errors and promises *)

(** A JS [Error], by its message. *)
Record Error := mkError { message : string }.

(** A synchronous call either returns or throws. *)
Inductive outcome (A : Type) : Type :=
| Return (a : A)
| Throw (e : Error).
Arguments Return {A} a.
Arguments Throw {A} e.

Module Promise.

(** A promise as the rest of the program can observe it: fulfilled or
    rejected at some instant, or never settled. *)
Inductive promise (A : Type) : Type :=
| Fulfilled (at_ : nat) (value : A)
| Rejected (at_ : nat) (reason : Error)
| Pending.
Arguments Fulfilled {A} at_ value.
Arguments Rejected {A} at_ reason.
Arguments Pending {A}.

(** The instant at which a promise settles, if it does. *)
Definition settled_at {A} (p : promise A) : option nat :=
  match p with
  | Fulfilled t _ => Some t
  | Rejected t _ => Some t
  | Pending => None
  end.

(** A promise that cannot settle before instant [t]. *)
Definition not_before {A} (t : nat) (p : promise A) : promise A :=
  match p with
  | Fulfilled t' v => Fulfilled (Nat.max t t') v
  | Rejected t' e => Rejected (Nat.max t t') e
  | Pending => Pending
  end.

(** The promise an [onFulfilled] or [onRejected] callback produces when it
    returns a plain value or throws. *)
Definition of_outcome {A} (o : outcome A) : promise A :=
  match o with
  | Return a => Fulfilled 0 a
  | Throw e => Rejected 0 e
  end.

(** [p.then(f)], the callback giving a promise. *)
Definition then_ {A B} (p : promise A) (f : A -> promise B) : promise B :=
  match p with
  | Fulfilled t a => not_before t (f a)
  | Rejected t e => Rejected t e
  | Pending => Pending
  end.

(** [p.catch(f)] *)
Definition catch {A} (p : promise A) (f : Error -> promise A) : promise A :=
  match p with
  | Fulfilled t a => Fulfilled t a
  | Rejected t e => not_before t (f e)
  | Pending => Pending
  end.

(** An input promise of [Promise.all] with its index in the array. *)
Definition indexed (A : Type) : Type := nat * promise A.

(** [x] settles no later than [y]; a promise that never settles comes last. *)
Definition settles_first {A} (x y : indexed A) : Prop :=
  match settled_at x.2, settled_at y.2 with
  | Some t, Some u => (t <= u)%nat
  | Some _, None => True
  | None, Some _ => False
  | None, None => True
  end.

#[global] Instance settles_first_dec {A} (x y : indexed A) :
  Decision (settles_first x y).
Proof.
  unfold settles_first.
  destruct (settled_at x.2), (settled_at y.2); apply _.
Defined.

(** The reactions of [Promise.all] in the order in which the inputs settle.
    [values] is the result array under construction (a slot is [None] until
    its promise is fulfilled) and [remaining] the count of inputs not yet
    fulfilled: the aggregate is fulfilled when the count reaches zero and
    rejected at the first rejection. *)
Fixpoint all_reactions {A} (settling : list (indexed A))
    (values : list (option A)) (remaining : nat) : promise (list A) :=
  match settling with
  | [] => Pending
  | (i, p) :: rest =>
      match p with
      | Fulfilled t v =>
          let values := <[i := Some v]> values in
          let remaining := (remaining - 1)%nat in
          if Nat.eqb remaining 0 then Fulfilled t (omap id values)
          else all_reactions rest values remaining
      | Rejected t e => Rejected t e
      | Pending => all_reactions rest values remaining
      end
  end.

(** [Promise.all(promises)]: each value is stored at the index of its
    promise, whenever that promise settles. *)
Definition all {A} (promises : list (promise A)) : promise (list A) :=
  match promises with
  | [] => Fulfilled 0 []
  | _ =>
      all_reactions (merge_sort settles_first (imap pair promises))
        (replicate (length promises) None) (length promises)
  end.

(** An input of [Promise.all] that is fulfilled. *)
Definition is_fulfilled {A} (x : indexed A) : Prop :=
  match x.2 with Fulfilled _ _ => True | _ => False end.

#[global] Instance is_fulfilled_dec {A} (x : indexed A) : Decision (is_fulfilled x).
Proof. unfold is_fulfilled. destruct x.2; apply _. Defined.

End Promise.

Import Promise.

(** ** The world outside the process *)

(** What [fetch] resolves to: [res.ok] and the promise [res.text()]. *)
Record Response := mkResponse { ok : bool; text : promise string }.

(** The clock, the remote source and the CSV parser library.  [fetch] is
    called with the URL alone, as the code does; [parse] stands for
    [parse(csvText, {columns: true, skip_empty_lines: true})] of csv-parse. *)
Record Env := mkEnv {
  clock : Date;
  fetch : string -> promise Response;
  parse : string -> outcome (list Row);
}.

(** ** The backend (index.js, scheduler.js) *)

(** The module-level variables [cachedData] and [cachedDates] ([None] is
    [null]), and the URLs handed to [fetch] so far, oldest first.  The last
    field is bookkeeping of the network traffic, not a program variable. *)
Record Server := mkServer {
  cachedData : option Dataset;
  cachedDates : option (list Cell);
  requested : list string;
}.

(** [let cachedData = null; let cachedDates = null;] *)
Definition initial_server : Server :=
  {| cachedData := None; cachedDates := None; requested := [] |}.

Definition set_cachedData (v : Dataset) (sv : Server) : Server :=
  {| cachedData := Some v; cachedDates := cachedDates sv; requested := requested sv |}.

Definition set_cachedDates (v : list Cell) (sv : Server) : Server :=
  {| cachedData := cachedData sv; cachedDates := Some v; requested := requested sv |}.

Definition request_all (urls : list string) (sv : Server) : Server :=
  {| cachedData := cachedData sv; cachedDates := cachedDates sv;
     requested := requested sv ++ urls |}.

(** The part of the state that queries are served from. *)
Definition snapshot (sv : Server) : option Dataset * option (list Cell) :=
  (cachedData sv, cachedDates sv).

(** One element of [fetches] (index.js 75-89): the request for month [ym],
    the status check, the body, the parser, and the [catch] that turns any
    failure of the chain into an empty array. *)
Definition month_promise (env : Env) (ym : string) : promise (list Row) :=
  catch
    (then_
      (then_ (fetch env (makeCsvUrl ym))
        (fun res =>
           if negb (ok res)
           then of_outcome (Throw (mkError ("Failed to fetch CSV for " +:+ ym)))
           else text res))
      (fun csvText =>
         let records := parse env csvText in
         of_outcome records))
    (fun e => of_outcome (Return [])).

(** The rows month [ym] contributes once its promise is fulfilled. *)
Definition month_rows (env : Env) (ym : string) : list Row :=
  match month_promise env ym with
  | Fulfilled _ records => records
  | _ => []
  end.

(** [fetchAndParseCSV(force)] (index.js 72-98).  The returned promise is the
    one of the [async] function; the server only gains the requests. *)
Definition fetchAndParseCSV (force : bool) (env : Env) (sv : Server)
  : Server * promise Dataset :=
  let months := getAllMonths (clock env) in
  let fetches := (fun ym => month_promise env ym) <$> months in
  let sv := request_all (makeCsvUrl <$> months) sv in
  (sv,
   then_ (Promise.all fetches) (fun allRecordsArr =>
     let allRecords := Arr.flat allRecordsArr in
     if Nat.eqb (length allRecords) 0
     then of_outcome (Throw (mkError "Parsed CSVs are empty."))
     else of_outcome (Return allRecords))).

(** [extractDates(records)] (index.js 101-103). *)
Definition extractDates (records : Dataset) : list Cell :=
  Arr.from_Set ((fun r => Obj.get r "Date") <$> records).

(** The filter of [extractMaturities]: [/\d+\s*(Mo|YR)/i.test(key)]. *)
Definition is_maturity (key : string) : bool :=
  RegExp.test RegExp.maturity_pattern key.

(** [extractMaturities(records)] (index.js 106-110); [Object.keys] of
    [undefined] throws a [TypeError]. *)
Definition extractMaturities (records : Dataset) : outcome (list string) :=
  match records with
  | [] => Throw (mkError "Cannot convert undefined or null to object")
  | sample :: _ => Return (List.filter is_maturity (Obj.keys sample))
  end.

(** The statement [if (!cachedData) cachedData = await fetchAndParseCSV();]
    that opens the three handlers: the server after it, with the value of
    [cachedData] once the statement has completed. *)
Definition load_cachedData (env : Env) (sv : Server)
  : Server * promise (Server * Dataset) :=
  match cachedData sv with
  | Some data => (sv, Fulfilled 0 (sv, data))
  | None =>
      let '(sv, p) := fetchAndParseCSV false env sv in
      (sv, then_ p (fun data => Fulfilled 0 (set_cachedData data sv, data)))
  end.

(** The statement [if (!cachedDates) cachedDates = extractDates(cachedData);]. *)
Definition load_cachedDates (data : Dataset) (sv : Server) : Server * list Cell :=
  match cachedDates sv with
  | Some dates => (sv, dates)
  | None => let dates := extractDates data in (set_cachedDates dates sv, dates)
  end.

(** What the startup code does once the first download is over. *)
Inductive Startup : Type :=
| Listening
| Exited (code : Z).

(** What a scheduled refresh writes to the log when it is over. *)
Inductive TickLog : Type :=
| LogRefreshed
| LogRefreshError (e : Error).

(** The callback of [setInterval] in [scheduleCsvRefresh] (scheduler.js
    13-23): the result of [fetchAndParseCSV(true)] is awaited and dropped. *)
Definition refresh_tick (env : Env) (sv : Server) : Server * promise TickLog :=
  let '(sv, p) := fetchAndParseCSV true env sv in
  (sv,
   catch (then_ p (fun _ => Fulfilled 0 LogRefreshed))
         (fun err => Fulfilled 0 (LogRefreshError err))).

(** A timer registered with [setInterval]. *)
Record Timer := mkTimer {
  period_ms : Z;
  on_tick : Env -> Server -> Server * promise TickLog;
}.

(** [scheduleCsvRefresh()] (scheduler.js 13-23): the refresh, every hour. *)
Definition scheduleCsvRefresh : Timer :=
  {| period_ms := 60 * 60 * 1000; on_tick := refresh_tick |}.

(** The startup code (index.js 184-198): on success the variables are
    assigned, the timer is registered and the server listens. *)
Definition bootstrap (env : Env) (sv : Server) : Server * promise Startup :=
  let '(sv1, p) := fetchAndParseCSV true env sv in
  match p with
  | Fulfilled t data =>
      let sv2 := set_cachedData data sv1 in
      let sv3 := set_cachedDates (extractDates data) sv2 in
      (sv3, Fulfilled t Listening)
  | Rejected t err => (sv1, Fulfilled t (Exited 1))
  | Pending => (sv1, Pending)
  end.

Section Handlers.

(** JS numbers and the built-in [parseFloat]. *)
Context {number : Type} (parseFloat : string -> number).

(** The JSON bodies the handlers send; a rate is [None] for [null]. *)
Inductive Body : Type :=
| JsonDates (dates : list Cell)
| JsonCurve (date : string) (curve : list (string * option number))
| JsonData (data : Dataset) (dates : list Cell)
| JsonError (error : string).

Record Reply := mkReply { status : Z; body : Body }.

(** [res.json(b)] and [res.status(code).json({ error: err.message })]. *)
Definition json (b : Body) : Reply := {| status := 200; body := b |}.
Definition fail (code : Z) (msg : string) : Reply :=
  {| status := code; body := JsonError msg |}.

(** The maturity labels of a curve reply, in the order sent. *)
Definition curve_maturities (reply : Reply) : list string :=
  match body reply with
  | JsonCurve _ curve => curve.*1
  | _ => []
  end.

(** The handlers run as [async] functions: the state they leave and the
    reply they send, if they get to send one. *)
Definition Handled : Type := Server * promise Reply.

(** Completion of a handler's [try] block whose awaited load has the
    promise [p]: [k] is the rest of the block, [catch] sends status 500. *)
Definition after_load (loading : Server * promise (Server * Dataset))
    (k : Server -> Dataset -> Server * outcome Reply) : Handled :=
  let '(sv, p) := loading in
  match p with
  | Fulfilled t (sv', data) =>
      let '(sv'', o) := k sv' data in
      (sv'', Fulfilled t
         match o with
         | Return reply => reply
         | Throw err => fail 500 (message err)
         end)
  | Rejected t err => (sv, Fulfilled t (fail 500 (message err)))
  | Pending => (sv, Pending)
  end.

(** [GET /api/dates] (index.js 124-136). *)
Definition get_dates (env : Env) (sv : Server) : Handled :=
  after_load (load_cachedData env sv) (fun sv data =>
    let '(sv, dates) := load_cachedDates data sv in
    if Nat.eqb (length dates) 0
    then (sv, Throw (mkError "No dates found in CSV."))
    else (sv, Return (json (JsonDates dates)))).

(** [record[maturity] !== '' ? parseFloat(record[maturity]) : null];
    [parseFloat] reads [undefined] as the string ["undefined"]. *)
Definition rate_of (record : Row) (maturity : string) : option number :=
  match Obj.get record maturity with
  | Some cell => if bool_decide (cell = "") then None else Some (parseFloat cell)
  | None => Some (parseFloat "undefined")
  end.

(** [GET /api/yield-curve] (index.js 139-162); [date] is [req.query.date],
    [None] when the parameter is absent. *)
Definition get_yield_curve (date : option string) (env : Env) (sv : Server)
  : Handled :=
  match date with
  | None => (sv, Fulfilled 0 (fail 400 "Missing date param"))
  | Some date =>
      if bool_decide (date = "")
      then (sv, Fulfilled 0 (fail 400 "Missing date param"))
      else
        after_load (load_cachedData env sv) (fun sv data =>
          match Arr.find (fun r => bool_decide (Obj.get r "Date" = Some date)) data with
          | None => (sv, Return (fail 404 "Date not found"))
          | Some record =>
              match extractMaturities [record] with
              | Throw err => (sv, Throw err)
              | Return maturities =>
                  if Nat.eqb (length maturities) 0
                  then (sv, Throw (mkError "No maturity columns found for this date."))
                  else
                    let curve :=
                      (fun maturity => (maturity, rate_of record maturity)) <$> maturities in
                    (sv, Return (json (JsonCurve date curve)))
              end
          end)
  end.

(** [GET /api/yield-curves] (index.js 165-180). *)
Definition get_yield_curves (env : Env) (sv : Server) : Handled :=
  after_load (load_cachedData env sv) (fun sv data =>
    let '(sv, dates) := load_cachedDates data sv in
    if Nat.eqb (length data) 0
    then (sv, Throw (mkError "No yield curve data available"))
    else (sv, Return (json (JsonData data dates)))).

(** [GET /api/debug-csv] (index.js 113-121): [CSV_URL] is declared
    nowhere, so evaluating the argument of [fetch] throws a ReferenceError
    before any request is made, and the [catch] sends its message. *)
Definition get_debug_csv (env : Env) (sv : Server) : Handled :=
  (sv, Fulfilled 0 (fail 500 "CSV_URL is not defined")).

(** The three queries of the API. *)
Inductive Query : Type :=
| GetDates
| GetYieldCurve (date : option string)
| GetYieldCurves.

(** Dispatch of a request to its handler. *)
Definition handle (q : Query) (env : Env) (sv : Server) : Handled :=
  match q with
  | GetDates => get_dates env sv
  | GetYieldCurve date => get_yield_curve date env sv
  | GetYieldCurves => get_yield_curves env sv
  end.

(** What can happen to a server that is listening: a query or a debug
    request comes in, or the hourly timer fires. *)
Inductive Action : Type :=
| Request (q : Query)
| DebugRequest
| RefreshTick.

(** The server after an action, in the environment the action meets.  An
    action is taken as one step: the scheduled refresh assigns no variable,
    and a handler that finds [cachedData] set reaches no [await]. *)
Definition act (a : Action) (env : Env) (sv : Server) : Server :=
  match a with
  | Request q => (handle q env sv).1
  | DebugRequest => (get_debug_csv env sv).1
  | RefreshTick => (on_tick scheduleCsvRefresh env sv).1
  end.

(** The states of a server that has begun to listen: the one the startup
    code leaves when it succeeds, and those that actions lead to. *)
Inductive serving : Server -> Prop :=
| serving_started env t sv :
    bootstrap env initial_server = (sv, Fulfilled t Listening) ->
    serving sv
| serving_act a env sv :
    serving sv ->
    serving (act a env sv).

End Handlers.

(** ** Sample data *)

Module Sample.

(** A stand-in for [parseFloat] on plain decimal numerals: the digits read
    as an integer, with the count of digits after the point; [None] is NaN. *)
Fixpoint read_decimal (s : string) (mantissa : Z) (decimals : nat) (dot : bool)
  : option (Z * nat) :=
  match s with
  | EmptyString => Some (mantissa, decimals)
  | String c s' =>
      if RegExp.digit c
      then read_decimal s' (mantissa * 10 + (Z.of_N (N_of_ascii c) - 48))
             (if dot then S decimals else decimals) dot
      else if bool_decide (c = "."%char) && negb dot
      then read_decimal s' mantissa decimals true
      else None
  end.

Definition parseFloat (s : string) : option (Z * nat) :=
  match s with
  | EmptyString => None
  | _ => read_decimal s 0 O false
  end.

Definition row_jan : Row :=
  [("Date", "01/02/2025"); ("1 Mo", "4.10"); ("1 YR", "4.20")].

Definition row_feb : Row :=
  [("Date", "02/18/2025"); ("1 Mo", "4.37"); ("1.5 Month", "4.35"); ("1 YR", "")].

Definition row_plain : Row := [("Date", "03/03/2025"); ("Note", "holiday")].

(** January and February 2025 are published; any other month is refused by
    the remote source.  February answers before January. *)
Definition source (url : string) : promise Response :=
  if bool_decide (url = makeCsvUrl "202501")
  then Fulfilled 7 (mkResponse true (Fulfilled 9 "jan"))
  else if bool_decide (url = makeCsvUrl "202502")
  then Fulfilled 2 (mkResponse true (Fulfilled 3 "feb"))
  else Fulfilled 4 (mkResponse false (Fulfilled 4 "Not Found")).

Definition parser (csvText : string) : outcome (list Row) :=
  if bool_decide (csvText = "jan") then Return [row_jan]
  else if bool_decide (csvText = "feb") then Return [row_feb]
  else Throw (mkError "Invalid Record Length").

(** The world in March 2025. *)
Definition env_march : Env :=
  {| clock := mkDate 2025 2; fetch := source; parse := parser |}.

(** A source that is down: every request is rejected. *)
Definition env_down : Env :=
  {| clock := mkDate 2025 2;
     fetch := fun _ => Rejected 1 (mkError "ECONNREFUSED");
     parse := parser |}.

(** A source that accepts the request for February and never answers. *)
Definition env_stalled : Env :=
  {| clock := mkDate 2025 2;
     fetch := fun url =>
       if bool_decide (url = makeCsvUrl "202502") then Pending else source url;
     parse := parser |}.

(** A later world in which only February is served. *)
Definition env_later : Env :=
  {| clock := mkDate 2025 2;
     fetch := fun url =>
       if bool_decide (url = makeCsvUrl "202502") then source url
       else Rejected 1 (mkError "ECONNREFUSED");
     parse := parser |}.

(** A server that holds January's row only. *)
Definition server_jan : Server :=
  {| cachedData := Some [row_jan];
     cachedDates := Some [Some "01/02/2025"];
     requested := [] |}.

(** A server that holds all three sample rows. *)
Definition server_three : Server :=
  {| cachedData := Some [row_jan; row_feb; row_plain];
     cachedDates := Some [Some "01/02/2025"; Some "02/18/2025"; Some "03/03/2025"];
     requested := [] |}.

End Sample.

(** ** The rate limiter's log throttle (index.js 41-55) *)

Module Limiter.

(** The [handler] of the rate limiter, called for a request over the limit
    at instant [now] ([Date.now()], in milliseconds) with the variable
    [lastRateLimitLog]: the new value of the variable and whether a line was
    logged.  The reply is always status 429. *)
Definition handler (now lastRateLimitLog : Z) : Z * bool :=
  if bool_decide (now - lastRateLimitLog > 60 * 1000)
  then (now, true)
  else (lastRateLimitLog, false).

(** The instants at which a sequence of refused requests is logged. *)
Fixpoint logged (nows : list Z) (lastRateLimitLog : Z) : list Z :=
  match nows with
  | [] => []
  | now :: rest =>
      let '(last, line) := handler now lastRateLimitLog in
      if line then now :: logged rest last else logged rest last
  end.

(** The variable after a sequence of refused requests. *)
Definition last_after (nows : list Z) (lastRateLimitLog : Z) : Z :=
  foldl (fun last now => (handler now last).1) lastRateLimitLog nows.

End Limiter.

(** ** States a server can pass through *)

Section Reachability.
Context {number : Type} (parseFloat : string -> number).

(** [reaches parseFloat sv0 sv]: some sequence of actions leads from [sv0]
    to [sv]. *)
Inductive reaches (sv0 : Server) : Server -> Prop :=
| reaches_here : reaches sv0 sv0
| reaches_act a env sv :
    reaches sv0 sv -> reaches sv0 (act parseFloat a env sv).

End Reachability.

(** ** The client's date conversions (frontend App.js) *)

Module Client.

(** [s.split(sep)] for a separator of one character: never empty. *)
Fixpoint split (sep : ascii) (s : string) : list string :=
  match s with
  | EmptyString => [EmptyString]
  | String c s' =>
      if bool_decide (c = sep) then EmptyString :: split sep s'
      else
        match split sep s' with
        | [] => [String c EmptyString]
        | w :: ws => String c w :: ws
        end
  end.

(** A template hole filled with a value that may be [undefined]. *)
Definition interpolate (v : option string) : string :=
  match v with
  | Some s => s
  | None => "undefined"
  end.

(** [v.padStart(2, '0')], a TypeError when [v] is [undefined]. *)
Definition padStart2 (v : option string) : outcome string :=
  match v with
  | Some s => Return (padStart 2 "0" s)
  | None => Throw (mkError "Cannot read properties of undefined (reading 'padStart')")
  end.

(** The literal [/\d{4}-\d{2}-\d{2}/]. *)
Definition iso_pattern : RegExp.regex :=
  let d := RegExp.Class RegExp.digit in
  let dash := RegExp.Class (fun c => bool_decide (c = "-"%char)) in
  RegExp.Seq d (RegExp.Seq d (RegExp.Seq d (RegExp.Seq d
   (RegExp.Seq dash (RegExp.Seq d (RegExp.Seq d
     (RegExp.Seq dash (RegExp.Seq d d)))))))).

(** [toISO] (App.js, in [fetchDates]): a date of the backend, 'MM/DD/YYYY',
    as the 'YYYY-MM-DD' of the date input; a string that holds an ISO date
    is returned as it is. *)
Definition toISO (d : string) : outcome string :=
  if RegExp.test iso_pattern d then Return d
  else
    let parts := split "/" d in
    let mm := parts !! 0%nat in
    let dd := parts !! 1%nat in
    let yyyy := parts !! 2%nat in
    match padStart2 mm with
    | Throw e => Throw e
    | Return mm2 =>
        match padStart2 dd with
        | Throw e => Throw e
        | Return dd2 => Return (interpolate yyyy +:+ "-" +:+ mm2 +:+ "-" +:+ dd2)
        end
    end.

(** [toBackendDate] (App.js, in the effect that fetches the curve): the
    'yyyy-MM-dd' of the date input as the 'MM/DD/YYYY' of the backend. *)
Definition toBackendDate (d : string) : string :=
  if bool_decide (d = "") then ""
  else
    let parts := split "-" d in
    let yyyy := parts !! 0%nat in
    let mm := parts !! 1%nat in
    let dd := parts !! 2%nat in
    interpolate mm +:+ "/" +:+ interpolate dd +:+ "/" +:+ interpolate yyyy.

(** A part of a date that holds neither of the two separators. *)
Definition plain (part : string) : bool :=
  forallb (fun c => negb (bool_decide (c = "/"%char)) && negb (bool_decide (c = "-"%char)))
    (RegExp.chars part).

End Client.

(** ** More sample data *)

Module SampleMore.

(** The clock of December 2024, before the first month of the source. *)
Definition env_early : Env :=
  {| clock := mkDate 2024 11; fetch := Sample.source; parse := Sample.parser |}.

(** A world in which January's body has a header and no line, and
    February's text is refused by the parser. *)
Definition env_partial : Env :=
  {| clock := mkDate 2025 1;
     fetch := fun url =>
       if bool_decide (url = makeCsvUrl "202501")
       then Fulfilled 1 (mkResponse true (Fulfilled 2 "header"))
       else Fulfilled 3 (mkResponse true (Fulfilled 5 "garbled"));
     parse := fun csvText =>
       if bool_decide (csvText = "header") then Return []
       else Throw (mkError "Invalid Record Length") |}.

End SampleMore.

(** ** Consistency of the two cache variables *)


(** ** The pattern matcher *)

Section Matcher.
Import RegExp.
Implicit Types (r : regex) (c : ascii) (s : list ascii).

Lemma lang_never_inv s : ~ lang Never s.
Proof. inversion 1. Qed.

Lemma lang_eps_inv s : lang Eps s -> s = [].
Proof. by inversion 1. Qed.

Lemma lang_class_inv p s : lang (Class p) s -> exists c, s = [c] /\ p c = true.
Proof. inversion 1; subst. by eexists. Qed.

Lemma lang_seq_inv r1 r2 s :
  lang (Seq r1 r2) s -> exists s1 s2, s = s1 ++ s2 /\ lang r1 s1 /\ lang r2 s2.
Proof. inversion 1; subst. by do 2 eexists. Qed.

Lemma lang_alt_inv r1 r2 s : lang (Alt r1 r2) s -> lang r1 s \/ lang r2 s.
Proof. inversion 1; subst; [by left|by right]. Qed.

Lemma nullable_lang r : nullable r = true <-> lang r [].
Proof.
  induction r as [| |p|r1 IH1 r2 IH2|r1 IH1 r2 IH2|r IH]; simpl.
  - split; [done|]. by intros ?%lang_never_inv.
  - split; [constructor|done].
  - split; [done|]. by intros (c & ? & _)%lang_class_inv.
  - rewrite andb_true_iff, IH1, IH2. split.
    + intros [H1 H2]. by apply (lang_seq r1 r2 [] []).
    + intros (s1 & s2 & Heq & H1 & H2)%lang_seq_inv.
      symmetry in Heq. apply app_eq_nil in Heq as [-> ->]. done.
  - rewrite orb_true_iff, IH1, IH2. split.
    + intros [?|?]; [by apply lang_alt_l|by apply lang_alt_r].
    + apply lang_alt_inv.
  - split; [constructor|done].
Qed.

(** A non-empty match of a repetition starts with a non-empty match of
    its body. *)
Lemma lang_star_cons_inv r c s :
  lang (Star r) (c :: s) ->
  exists s1 s2, s = s1 ++ s2 /\ lang r (c :: s1) /\ lang (Star r) s2.
Proof.
  remember (Star r) as r' eqn:Hr. remember (c :: s) as w eqn:Hw.
  intros H. revert s Hw Hr.
  induction H as [| | | | | |r0 w1 w2 H1 _ H2 IH2]; intros tl Hw Hr; try discriminate.
  injection Hr as ->. destruct w1 as [|c' w1'].
  - simpl in Hw. by apply IH2.
  - simpl in Hw. injection Hw as -> <-. by exists w1', w2.
Qed.

Lemma deriv_lang c r s : lang (deriv c r) s <-> lang r (c :: s).
Proof.
  revert s. induction r as [| |p|r1 IH1 r2 IH2|r1 IH1 r2 IH2|r IH]; intros s; simpl.
  - split; by intros ?%lang_never_inv.
  - split; [by intros ?%lang_never_inv|]. by intros ?%lang_eps_inv.
  - destruct (p c) eqn:Hp.
    + split.
      * intros ->%lang_eps_inv. by constructor.
      * intros (c' & [= <- ->] & _)%lang_class_inv. constructor.
    + split; [by intros ?%lang_never_inv|].
      intros (c' & [= <- ->] & Hp')%lang_class_inv. congruence.
  - assert (Hseq : lang (Seq (deriv c r1) r2) s \/ (lang r1 [] /\ lang (deriv c r2) s)
                   <-> lang (Seq r1 r2) (c :: s)).
    { split.
      - intros [(s1 & s2 & -> & H1 & H2)%lang_seq_inv|[H1 H2]].
        + apply IH1 in H1. by apply (lang_seq r1 r2 (c :: s1) s2).
        + apply IH2 in H2. by apply (lang_seq r1 r2 [] (c :: s)).
      - intros (s1 & s2 & Heq & H1 & H2)%lang_seq_inv.
        destruct s1 as [|c' s1']; simpl in Heq.
        + subst s2. right. split; [done|]. by apply IH2.
        + injection Heq as <- ->. left. apply lang_seq; [|done]. by apply IH1. }
    destruct (nullable r1) eqn:Hn.
    + apply nullable_lang in Hn. rewrite <- Hseq. split.
      * intros [?|?]%lang_alt_inv; [by left|by right].
      * intros [?|[_ ?]]; [by apply lang_alt_l|by apply lang_alt_r].
    + rewrite <- Hseq. split; [by left|]. intros [?|[Hnil _]]; [done|].
      apply nullable_lang in Hnil. congruence.
  - split.
    + intros [?|?]%lang_alt_inv; [apply lang_alt_l|apply lang_alt_r]; by apply IH1 || by apply IH2.
    + intros [?|?]%lang_alt_inv; [apply lang_alt_l|apply lang_alt_r]; by apply IH1 || by apply IH2.
  - split.
    + intros (s1 & s2 & -> & H1 & H2)%lang_seq_inv. apply IH in H1.
      by apply (lang_star_cons r (c :: s1) s2).
    + intros (s1 & s2 & -> & H1 & H2)%lang_star_cons_inv.
      apply lang_seq; [|done]. by apply IH.
Qed.

(** The matcher decides the language of the pattern. *)
Lemma matches_lang r (str : string) :
  matches r str = true <-> lang r (chars str).
Proof.
  revert r. induction str as [|c str IH]; intros r; simpl.
  - apply nullable_lang.
  - rewrite IH. apply deriv_lang.
Qed.

Lemma lang_star_any s : lang (Star any) s.
Proof.
  induction s as [|c s IH]; [constructor|].
  apply (lang_star_cons any [c] s); [by constructor|done].
Qed.

(** [test]: some substring is in the language. *)
Lemma test_lang r (str : string) :
  test r str = true <->
  exists pre mid post,
    chars str = pre ++ mid ++ post /\ lang r mid.
Proof.
  unfold test. rewrite matches_lang. split.
  - intros (pre & rest & -> & _ & (mid & post & -> & Hmid & _)%lang_seq_inv)%lang_seq_inv.
    by exists pre, mid, post.
  - intros (pre & mid & post & -> & Hmid).
    apply lang_seq; [apply lang_star_any|].
    apply lang_seq; [done|apply lang_star_any].
Qed.

Lemma lang_star_class p s : lang (Star (Class p)) s <-> Forall (fun c => p c = true) s.
Proof.
  split.
  - remember (Star (Class p)) as r eqn:Hr. intros H. revert Hr.
    induction H as [| | | | | |r0 s1 s2 H1 _ H2 IH2]; intros Hr; try discriminate; [constructor|].
    injection Hr as ->. apply lang_class_inv in H1 as (c & -> & Hc).
    constructor; [done|]. by apply IH2.
  - induction 1 as [|c s Hc _ IH]; [constructor|].
    apply (lang_star_cons (Class p) [c] s); [by constructor|done].
Qed.

(** The maturity pattern: a digit, then any number of further digits,
    then any white space, then "mo" or "yr" in either case. *)
Lemma lang_maturity_pattern s :
  lang maturity_pattern s <->
  exists d digits spaces u1 u2,
    s = d :: digits ++ spaces ++ [u1; u2]
    /\ digit d = true
    /\ Forall (fun c => digit c = true) digits
    /\ Forall (fun c => space c = true) spaces
    /\ ((letter_i "M" "m" u1 = true /\ letter_i "O" "o" u2 = true) \/
        (letter_i "Y" "y" u1 = true /\ letter_i "R" "r" u2 = true)).
Proof.
  unfold maturity_pattern, Plus. split.
  - intros (ds & rest & -> & (d1 & digits & -> & (d & -> & Hd)%lang_class_inv
              & Hdigits%lang_star_class)%lang_seq_inv
            & (spaces & unit & -> & Hspaces%lang_star_class & Hunit)%lang_seq_inv)%lang_seq_inv.
    assert (exists u1 u2, unit = [u1; u2] /\
       ((letter_i "M" "m" u1 = true /\ letter_i "O" "o" u2 = true) \/
        (letter_i "Y" "y" u1 = true /\ letter_i "R" "r" u2 = true)))
      as (u1 & u2 & -> & Hu).
    { apply lang_alt_inv in Hunit as
        [(a & b & -> & (u1 & -> & H1)%lang_class_inv & (u2 & -> & H2)%lang_class_inv)%lang_seq_inv
        |(a & b & -> & (u1 & -> & H1)%lang_class_inv & (u2 & -> & H2)%lang_class_inv)%lang_seq_inv];
        exists u1, u2; (split; [done|]); [left|right]; done. }
    by exists d, digits, spaces, u1, u2.
  - intros (d & digits & spaces & u1 & u2 & -> & Hd & Hdigits & Hspaces & Hu).
    change (d :: digits ++ spaces ++ [u1; u2])
      with (([d] ++ digits) ++ spaces ++ ([u1] ++ [u2])).
    apply lang_seq; [apply lang_seq; [by constructor|by apply lang_star_class]|].
    apply lang_seq; [by apply lang_star_class|].
    destruct Hu as [[H1 H2]|[H1 H2]]; [apply lang_alt_l|apply lang_alt_r];
      apply lang_seq; by constructor.
Qed.

End Matcher.

(** A column is a maturity column exactly when its name contains a digit
    run followed by optional white space and "mo" or "yr" in either case. *)
Lemma is_maturity_spec (key : string) :
  is_maturity key = true <->
  exists pre d digits spaces u1 u2 post,
    RegExp.chars key = pre ++ (d :: digits ++ spaces ++ [u1; u2]) ++ post
    /\ RegExp.digit d = true
    /\ Forall (fun c => RegExp.digit c = true) digits
    /\ Forall (fun c => RegExp.space c = true) spaces
    /\ ((RegExp.letter_i "M" "m" u1 = true /\ RegExp.letter_i "O" "o" u2 = true) \/
        (RegExp.letter_i "Y" "y" u1 = true /\ RegExp.letter_i "R" "r" u2 = true)).
Proof.
  unfold is_maturity. rewrite test_lang. split.
  - intros (pre & mid & post & Hkey & Hmid).
    apply lang_maturity_pattern in Hmid as (d & digits & spaces & u1 & u2 & -> & H).
    by exists pre, d, digits, spaces, u1, u2, post.
  - intros (pre & d & digits & spaces & u1 & u2 & post & Hkey & H).
    exists pre, (d :: digits ++ spaces ++ [u1; u2]), post. split; [done|].
    apply lang_maturity_pattern. by exists d, digits, spaces, u1, u2.
Qed.
Example getAllMonths_2025_03 :
  getAllMonths (mkDate 2025 2) = ["202501"; "202502"; "202503"]%string.
Proof. vm_compute. reflexivity. Qed.

(** *** Properties of the month enumerator *)

Lemma token_at_index y m : 0 <= m <= 11 -> token_at (month_index y m) = month_token y m.
Proof.
  intros Hm. unfold token_at, month_index.
  replace ((y * 12 + m) `div` 12) with y by (apply (Z.div_unique _ 12 y m); lia).
  replace ((y * 12 + m) `mod` 12) with m by (apply (Z.mod_unique _ 12 y m); lia).
  reflexivity.
Qed.

Lemma months_cond_true now y m :
  valid_date now -> 0 <= m <= 11 ->
  months_cond now y m = true <->
  month_index y m <= month_index (getFullYear now) (getMonth now).
Proof.
  unfold valid_date, months_cond, month_index. intros Hn Hm.
  rewrite orb_true_iff, andb_true_iff, !bool_decide_eq_true. lia.
Qed.

(** The loop appends the tokens of all months from (y, m) to the current
    month, in calendar order. *)
Lemma getAllMonths_while_spec now y m months :
  valid_date now -> 0 <= m <= 11 ->
  getAllMonths_while now y m months =
  months ++ (token_at <$> seqZ (month_index y m)
       (month_index (getFullYear now) (getMonth now) - month_index y m + 1)).
Proof.
  intros Hn. funelim (getAllMonths_while now y m months); intros Hm.
  - assert (Hc := e). apply not_true_iff_false in Hc.
    rewrite months_cond_true in Hc by done.
    rewrite seqZ_nil by lia. by rewrite app_nil_r.
  - assert (Hc := e). rewrite months_cond_true in Hc by done.
    assert (He := e0). apply bool_decide_eq_true in He. assert (m = 11) by lia.
    rewrite H by (done || lia). rewrite <- app_assoc. f_equal.
    rewrite (seqZ_cons (month_index y m)) by lia.
    rewrite fmap_cons, token_at_index by lia. simpl. do 3 f_equal.
    all: unfold month_index; lia.
  - assert (Hc := e). rewrite months_cond_true in Hc by done.
    assert (He := e0). apply bool_decide_eq_false in He.
    rewrite H by (done || lia). rewrite <- app_assoc. f_equal.
    rewrite (seqZ_cons (month_index y m)) by lia.
    rewrite fmap_cons, token_at_index by lia. simpl. do 3 f_equal.
    all: unfold month_index; lia.
Qed.

Lemma string_length_app (s t : string) :
  String.length (s +:+ t) = (String.length s + String.length t)%nat.
Proof.
  induction s as [|c s IH]; [reflexivity|].
  change (String c s +:+ t) with (String c (s +:+ t)). simpl. by rewrite IH.
Qed.

(** Two concatenations with tails of equal length agree part by part. *)
Lemma string_app_inj_tail (s1 s2 t1 t2 : string) :
  String.length t1 = String.length t2 ->
  s1 +:+ t1 = s2 +:+ t2 -> s1 = s2 /\ t1 = t2.
Proof.
  revert s2. induction s1 as [|c s1 IH]; intros [|d s2] Hlen Heq.
  - done.
  - change ("" +:+ t1) with t1 in Heq. subst t1.
    change (String d s2 +:+ t2) with (String d (s2 +:+ t2)) in Hlen.
    simpl in Hlen. rewrite string_length_app in Hlen. lia.
  - change ("" +:+ t2) with t2 in Heq. subst t2.
    change (String c s1 +:+ t1) with (String c (s1 +:+ t1)) in Hlen.
    simpl in Hlen. rewrite string_length_app in Hlen. lia.
  - change (String c s1 +:+ t1) with (String c (s1 +:+ t1)) in Heq.
    change (String d s2 +:+ t2) with (String d (s2 +:+ t2)) in Heq.
    injection Heq as -> Heq. destruct (IH _ Hlen Heq) as [-> ->]. done.
Qed.

Ltac month_cases m :=
  assert (m = 0 \/ m = 1 \/ m = 2 \/ m = 3 \/ m = 4 \/ m = 5 \/ m = 6 \/
          m = 7 \/ m = 8 \/ m = 9 \/ m = 10 \/ m = 11) as Hcases by lia;
  repeat (destruct Hcases as [Hcases|Hcases]); subst m.

(** The month part of a token has exactly two characters. *)
Lemma month_part_length m :
  0 <= m <= 11 -> String.length (padStart 2 "0" (toString (m + 1))) = 2%nat.
Proof. intros Hm. month_cases m; reflexivity. Qed.

Lemma month_part_value_pad m :
  0 <= m <= 11 -> month_part_value (padStart 2 "0" (toString (m + 1))) = m + 1.
Proof. intros Hm. month_cases m; reflexivity. Qed.

(** Distinct calendar months have distinct tokens. *)
Lemma month_token_inj y m y' m' :
  0 <= m <= 11 -> 0 <= m' <= 11 ->
  month_token y m = month_token y' m' -> y = y' /\ m = m'.
Proof.
  intros Hm Hm' Heq. unfold month_token in Heq.
  apply string_app_inj_tail in Heq as [Hy Hmm].
  - split.
    + by apply (inj pretty) in Hy.
    + apply (f_equal month_part_value) in Hmm.
      rewrite !month_part_value_pad in Hmm by done. lia.
  - by rewrite !month_part_length.
Qed.

Lemma token_at_inj i j : token_at i = token_at j -> i = j.
Proof.
  unfold token_at. intros Heq.
  pose proof (Z.mod_pos_bound i 12). pose proof (Z.mod_pos_bound j 12).
  apply month_token_inj in Heq as [Hd Hr]; [|lia..].
  rewrite (Z.div_mod i 12), (Z.div_mod j 12) by lia. congruence.
Qed.

(** Years of four digits print as four characters. *)
Lemma four_digit_year y : 1000 <= y <= 9999 -> String.length (toString y) = 4%nat.
Proof.
  intros Hy.
  assert (Hall : forallb (fun z => Nat.eqb (String.length (toString z)) 4)
                   (seqZ 1000 9000) = true) by (vm_compute; reflexivity).
  rewrite forallb_forall in Hall.
  apply Nat.eqb_eq, Hall, list_elem_of_In, elem_of_seqZ. lia.
Qed.

Lemma month_index_div_mod i : month_index (i `div` 12) (i `mod` 12) = i.
Proof. unfold month_index. pose proof (Z.div_mod i 12). lia. Qed.

Lemma token_at_before i j : i < j -> token_before (token_at i) (token_at j).
Proof.
  intros Hij. exists (i `div` 12), (i `mod` 12), (j `div` 12), (j `mod` 12).
  pose proof (Z.mod_pos_bound i 12). pose proof (Z.mod_pos_bound j 12).
  rewrite !month_index_div_mod. repeat split; (done || lia).
Qed.

Lemma tokens_sorted a n : StronglySorted token_before (token_at <$> seqZ a n).
Proof.
  remember (Z.to_nat n) as k eqn:Hk. revert a n Hk.
  induction k as [|k IH]; intros a n Hk.
  - rewrite seqZ_nil by lia. constructor.
  - rewrite seqZ_cons by lia. rewrite fmap_cons. constructor.
    + apply IH. lia.
    + apply Forall_fmap, Forall_seqZ. intros j Hj. apply token_at_before. lia.
Qed.

Lemma tokens_NoDup a n : NoDup (token_at <$> seqZ a n).
Proof.
  apply NoDup_fmap_2; [|apply NoDup_seqZ].
  intros i j. apply token_at_inj.
Qed.

(** C9: when the clock reads January 2025 or later, getAllMonths returns
    the tokens of all calendar months from 2025-01 to the current month, one
    token per month and in calendar order: the first token is 202501, the
    last is the current month's, the sequence is strictly increasing in
    time, no token occurs twice, a month's token occurs exactly when the
    month lies in the range, and up to year 9999 every token has six
    characters (four of the year, two of the zero-padded month).  The
    function is total: it has a value for every clock reading. *)
Theorem getAllMonths_epoch_to_now (now : Date) :
  valid_date now ->
  2025 <= getFullYear now ->
  let first := month_index 2025 0 in
  let current := month_index (getFullYear now) (getMonth now) in
  getAllMonths now = token_at <$> seqZ first (current - first + 1)
  /\ head (getAllMonths now) = Some "202501"
  /\ last (getAllMonths now) = Some (month_token (getFullYear now) (getMonth now))
  /\ StronglySorted token_before (getAllMonths now)
  /\ NoDup (getAllMonths now)
  /\ (forall y m, 0 <= m <= 11 ->
        month_token y m ∈ getAllMonths now <->
        first <= month_index y m <= current)
  /\ (getFullYear now <= 9999 ->
        Forall (fun t => String.length t = 6%nat) (getAllMonths now)).
Proof.
  intros Hv Hy first current.
  assert (Hrange : first <= current).
  { unfold first, current, month_index, valid_date in *. lia. }
  assert (Heq : getAllMonths now = token_at <$> seqZ first (current - first + 1)).
  { unfold getAllMonths. simpl getFullYear. simpl getMonth.
    rewrite getAllMonths_while_spec by (done || lia). reflexivity. }
  rewrite Heq. split; [reflexivity|]. split; [|split; [|split; [|split; [|split]]]].
  - rewrite seqZ_cons by lia. reflexivity.
  - replace (current - first + 1) with ((current - first) + 1) by lia.
    rewrite seqZ_app by lia. rewrite fmap_app, (seqZ_cons _ 1) by lia.
    rewrite (seqZ_nil _ (Z.pred 1)) by lia. rewrite fmap_cons, fmap_nil, last_snoc.
    replace (first + (current - first)) with current by lia.
    unfold current. by rewrite token_at_index.
  - apply tokens_sorted.
  - apply tokens_NoDup.
  - intros y m Hm. rewrite <- (token_at_index y m) by done.
    rewrite list_elem_of_fmap. setoid_rewrite elem_of_seqZ. split.
    + intros (i & Hi%token_at_inj & Hin). lia.
    + intros Hin. exists (month_index y m). split; [done | lia].
  - intros H9999. apply Forall_fmap, Forall_seqZ. intros i Hi. simpl.
    unfold token_at, month_token. rewrite string_length_app.
    pose proof (Z.mod_pos_bound i 12).
    rewrite month_part_length by lia. rewrite four_digit_year; [done|].
    unfold first, current, month_index, valid_date in *.
    split.
    + apply Z.le_trans with 2025; [lia|]. apply Z.div_le_lower_bound; lia.
    + apply Z.lt_succ_r. apply Z.div_lt_upper_bound; lia.
Qed.

(** The enumeration at the clock reading March 2025. *)
Lemma getAllMonths_epoch_to_now_witness :
  valid_date (mkDate 2025 2) /\ 2025 <= getFullYear (mkDate 2025 2) /\
  getAllMonths (mkDate 2025 2) = ["202501"; "202502"; "202503"].
Proof.
  assert (Hv : valid_date (mkDate 2025 2)) by (unfold valid_date; simpl; lia).
  assert (Hy : 2025 <= getFullYear (mkDate 2025 2)) by (simpl; lia).
  split; [exact Hv|]. split; [exact Hy|].
  destruct (getAllMonths_epoch_to_now (mkDate 2025 2) Hv Hy) as [-> _].
  vm_compute. reflexivity.
Defined.

(** ** Promise.all *)

Section PromiseAll.
Context {A : Type}.
Implicit Types (ps : list (promise A)) (vs : list A).
Implicit Types (settling : list (indexed A)) (values : list (option A)).

(** A result array whose slots are all filled holds the values themselves. *)
Lemma omap_id_filled values vs :
  length values = length vs ->
  (forall i, (i < length vs)%nat -> values !! i = Some (vs !! i)) ->
  omap id values = vs.
Proof.
  intros Hlen Hfill.
  assert (values = Some <$> vs) as ->.
  { apply list_eq. intros i. rewrite list_lookup_fmap.
    destruct (decide (i < length vs)%nat) as [Hi|Hi].
    - rewrite Hfill by done. by destruct (lookup_lt_is_Some_2 vs i Hi) as [v ->].
    - rewrite !lookup_ge_None_2 by lia. done. }
  clear. induction vs as [|v vs IH]; [done|]. cbn. by f_equal.
Qed.

(** Inputs that are all fulfilled: whatever the order in which they settle,
    the aggregate is fulfilled with the values in index order. *)
Lemma all_reactions_fulfilled vs settling values remaining :
  remaining = length settling ->
  NoDup settling.*1 ->
  (forall i p, (i, p) ∈ settling -> exists t v, p = Fulfilled t v /\ vs !! i = Some v) ->
  length values = length vs ->
  (forall i, (i < length vs)%nat -> i ∉ settling.*1 -> values !! i = Some (vs !! i)) ->
  settling <> [] ->
  exists t, all_reactions settling values remaining = Fulfilled t vs.
Proof.
  intros ->.
  revert values. induction settling as [|[i p] rest IH]; intros values Hnd Hful Hlen Hdone Hne.
  - done.
  - destruct (Hful i p) as (t & v & -> & Hv); [left|].
    apply NoDup_cons in Hnd as [Hi Hnd]. simpl in Hi.
    assert (Hi_lt : (i < length values)%nat).
    { rewrite Hlen. by apply lookup_lt_Some in Hv. }
    assert (Hdone' : forall j, (j < length vs)%nat -> j ∉ rest.*1 ->
                <[i:=Some v]> values !! j = Some (vs !! j)).
    { intros j Hj Hjr. destruct (decide (i = j)) as [->|Hij].
      - rewrite list_lookup_insert_eq by done. by rewrite Hv.
      - rewrite list_lookup_insert_ne by done. apply Hdone; [done|].
        rewrite fmap_cons, not_elem_of_cons. done. }
    simpl. rewrite Nat.sub_0_r.
    destruct rest as [|e rest'].
    + simpl. exists t. f_equal. apply omap_id_filled.
      * by rewrite length_insert.
      * intros j Hj. apply Hdone'; [done|]. simpl. apply not_elem_of_nil.
    + change (Nat.eqb (length (e :: rest')) 0) with false. cbv iota.
      apply IH; [done| |by rewrite length_insert|done|done].
      intros j q Hjq. apply Hful. by right.
Qed.

Lemma imap_pair_fst ps : (imap pair ps).*1 = seq 0 (length ps).
Proof.
  rewrite fmap_imap. rewrite <- (list_fmap_id (seq 0 (length ps))).
  rewrite <- (imap_seq_0 ps id). apply imap_ext. done.
Qed.

Lemma all_nonempty ps :
  ps <> [] ->
  Promise.all ps =
  all_reactions (merge_sort settles_first (imap pair ps))
    (replicate (length ps) None) (length ps).
Proof. by destruct ps. Qed.

Lemma all_fulfilled ps vs :
  Forall2 (fun p v => exists t, p = Fulfilled t v) ps vs ->
  exists t, Promise.all ps = Fulfilled t vs.
Proof.
  intros Hall. destruct (decide (ps = [])) as [->|Hne].
  { apply Forall2_nil_inv_l in Hall as ->. by exists O. }
  rewrite all_nonempty by done.
  assert (Hlen : length ps = length vs) by by eapply Forall2_length.
  assert (Hperm : merge_sort settles_first (imap pair ps) ≡ₚ imap pair ps)
    by apply merge_sort_Permutation.
  apply all_reactions_fulfilled.
  - by rewrite Hperm, length_imap.
  - rewrite Hperm, imap_pair_fst. apply NoDup_seq.
  - intros i q Hq. rewrite Hperm in Hq.
    apply elem_of_lookup_imap in Hq as (j & q' & [= <- <-] & Hlook).
    destruct (Forall2_lookup_l _ _ _ _ _ Hall Hlook) as (v & Hv & t & ->). eauto.
  - by rewrite length_replicate.
  - intros i Hi Hnot. exfalso. apply Hnot.
    rewrite Hperm, imap_pair_fst, elem_of_seq. lia.
  - intros Hnil. rewrite Hnil in Hperm. apply Permutation_nil_l in Hperm.
    by destruct ps.
Qed.

(** No rejection and fewer fulfilments than inputs: the count never
    reaches zero. *)
Lemma all_reactions_pending settling values remaining :
  (forall i t e, (i, Rejected t e) ∉ settling) ->
  (length (filter is_fulfilled settling) < remaining)%nat ->
  all_reactions settling values remaining = Pending.
Proof.
  revert values remaining.
  induction settling as [|[i p] rest IH]; intros values remaining Hrej Hcount; [done|].
  assert (Hrej' : forall j t e, (j, Rejected t e) ∉ rest).
  { intros j t e Hin. apply (Hrej j t e). by right. }
  destruct p as [t v|t e|]; simpl.
  - rewrite filter_cons_True in Hcount by done. simpl in Hcount.
    destruct (Nat.eqb_spec (remaining - 1) 0) as [H0|_]; [lia|].
    apply IH; [done | lia].
  - exfalso. apply (Hrej i t e). left.
  - rewrite filter_cons_False in Hcount by (unfold is_fulfilled; simpl; tauto).
    by apply IH.
Qed.

Lemma all_pending ps :
  (forall t e, Rejected t e ∉ ps) -> Pending ∈ ps -> Promise.all ps = Pending.
Proof.
  intros Hrej Hpend.
  assert (Hne : ps <> []) by (intros Hnil; rewrite Hnil in Hpend; by apply elem_of_nil in Hpend).
  rewrite all_nonempty by done.
  assert (Hperm : merge_sort settles_first (imap pair ps) ≡ₚ imap pair ps)
    by apply merge_sort_Permutation.
  apply all_reactions_pending.
  - intros i t e Hin. rewrite Hperm in Hin.
    apply elem_of_lookup_imap in Hin as (j & q & [= <- <-] & Hlook).
    apply (Hrej t e). by eapply list_elem_of_lookup_2.
  - rewrite Hperm. rewrite <- (length_imap pair ps).
    apply list_elem_of_lookup in Hpend as [i Hi].
    apply (length_filter_lt _ _ (i, Pending)).
    + by apply elem_of_lookup_imap_2 with (f := pair) in Hi.
    + unfold is_fulfilled. simpl. tauto.
Qed.

End PromiseAll.

(** ** The per-month chain and the aggregation *)

(** The [catch] at the end of the chain leaves no rejection. *)
Lemma month_promise_not_rejected env ym t e : month_promise env ym <> Rejected t e.
Proof.
  unfold month_promise.
  destruct (fetch env (makeCsvUrl ym)) as [t1 res|t1 e1|]; simpl; [|done..].
  destruct (ok res); simpl; [|done].
  destruct (text res) as [t2 txt|t2 e2|]; simpl; [|done..].
  by destruct (parse env txt).
Qed.

(** A chain that settles is fulfilled with the month's rows. *)
Lemma month_promise_settled env ym :
  month_promise env ym <> Pending ->
  exists t, month_promise env ym = Fulfilled t (month_rows env ym).
Proof.
  intros Hp. unfold month_rows.
  destruct (month_promise env ym) as [t rows|t e|] eqn:Heq; [by exists t| |done].
  by apply month_promise_not_rejected in Heq.
Qed.

(** The chain stays pending exactly when the request is never answered, or
    an accepted response never delivers its body. *)
Lemma month_promise_pending env ym :
  month_promise env ym = Pending <->
  fetch env (makeCsvUrl ym) = Pending \/
  exists t res, fetch env (makeCsvUrl ym) = Fulfilled t res /\
                ok res = true /\ text res = Pending.
Proof.
  unfold month_promise.
  destruct (fetch env (makeCsvUrl ym)) as [t1 res|t1 e1|]; simpl.
  - destruct (ok res) eqn:Hok; simpl.
    + destruct (text res) as [t2 txt|t2 e2|] eqn:Htxt; simpl.
      * destruct (parse env txt); simpl; split; try done.
        all: intros [?|(? & ? & [= <- <-] & _ & ?)]; congruence.
      * split; [done|]. intros [?|(? & ? & [= <- <-] & _ & ?)]; congruence.
      * split; [|done]. intros _. right. by exists t1, res.
    + split; [done|]. intros [?|(? & ? & [= <- <-] & ? & _)]; congruence.
  - split; [done|]. intros [?|(? & ? & ? & _)]; congruence.
  - split; [by left|done].
Qed.

(** A request that is rejected, a status that is not ok, a body that cannot
    be read and a text that the parser refuses all give an empty array. *)
Lemma month_promise_failure env ym :
  (exists t e, fetch env (makeCsvUrl ym) = Rejected t e) \/
  (exists t res, fetch env (makeCsvUrl ym) = Fulfilled t res /\
     (ok res = false \/
      (exists u e, text res = Rejected u e) \/
      (exists u txt e, text res = Fulfilled u txt /\ parse env txt = Throw e))) ->
  exists t, month_promise env ym = Fulfilled t [].
Proof.
  unfold month_promise.
  intros [(t & e & ->)|(t & res & -> & [Hok|[(u & e & Htxt)|(u & txt & e & Htxt & Hparse)]])];
    simpl.
  - by eexists.
  - rewrite Hok. simpl. by eexists.
  - destruct (ok res); simpl; [|by eexists]. rewrite Htxt. simpl. by eexists.
  - destruct (ok res); simpl; [|by eexists]. rewrite Htxt. simpl.
    rewrite Hparse. simpl. by eexists.
Qed.

Lemma length_flat {A} (arrays : list (list A)) :
  length (Arr.flat arrays) = sum_list_with length arrays.
Proof.
  unfold Arr.flat. induction arrays as [|a arrays IH]; [done|].
  cbn. rewrite length_app. by f_equal.
Qed.

Lemma sum_list_with_fmap {A B} (f : B -> nat) (g : A -> B) (l : list A) :
  sum_list_with f (g <$> l) = sum_list_with (fun x => f (g x)) l.
Proof. induction l as [|x l IH]; [done|]. cbn. by f_equal. Qed.

(** The promise [fetchAndParseCSV] returns, in terms of [Promise.all]. *)
Lemma fetchAndParseCSV_promise force env sv :
  (fetchAndParseCSV force env sv).2 =
  then_ (Promise.all (month_promise env <$> getAllMonths (clock env)))
    (fun allRecordsArr =>
       if Nat.eqb (length (Arr.flat allRecordsArr)) 0
       then Rejected 0 (mkError "Parsed CSVs are empty.")
       else Fulfilled 0 (Arr.flat allRecordsArr)).
Proof. reflexivity. Qed.

(** The only change [fetchAndParseCSV] makes to the server is the record of
    its requests. *)
Lemma fetchAndParseCSV_server force env sv :
  (fetchAndParseCSV force env sv).1 =
  request_all (makeCsvUrl <$> getAllMonths (clock env)) sv.
Proof. reflexivity. Qed.

Lemma all_months_settled env months :
  (forall ym, ym ∈ months -> month_promise env ym <> Pending) ->
  exists t, Promise.all (month_promise env <$> months) =
            Fulfilled t (month_rows env <$> months).
Proof.
  intros Hsettle. apply all_fulfilled.
  apply Forall2_fmap, Forall_Forall2_diag, Forall_forall.
  intros ym Hym. by apply month_promise_settled, Hsettle.
Qed.

(** When every month settles, the aggregation is decided by the total
    number of rows alone. *)
Lemma fetchAndParseCSV_settled force env sv :
  let months := getAllMonths (clock env) in
  let allRecords := Arr.flat (month_rows env <$> months) in
  (forall ym, ym ∈ months -> month_promise env ym <> Pending) ->
  exists t,
    (fetchAndParseCSV force env sv).2 =
    if Nat.eqb (length allRecords) 0
    then Rejected t (mkError "Parsed CSVs are empty.")
    else Fulfilled t allRecords.
Proof.
  intros months allRecords Hsettle.
  destruct (all_months_settled env months Hsettle) as [t Hall].
  rewrite fetchAndParseCSV_promise. fold months. rewrite Hall. simpl.
  fold allRecords. exists (Nat.max t 0).
  by destruct (Nat.eqb (length allRecords) 0).
Qed.

(** C2: if every month's chain settles and at least one month yields rows,
    fetchAndParseCSV is fulfilled with the months' rows concatenated in the
    order of the month tokens, each month's rows in their own order; the
    number of rows is the sum of the months' numbers of rows; and a world
    that differs only in when (and how) the months settle, with the same
    rows per month, gives the same dataset. *)
Theorem fetchAndParseCSV_concatenates force env sv :
  let months := getAllMonths (clock env) in
  (forall ym, ym ∈ months -> month_promise env ym <> Pending) ->
  (exists ym, ym ∈ months /\ month_rows env ym <> []) ->
  (exists t, (fetchAndParseCSV force env sv).2 =
             Fulfilled t (concat (month_rows env <$> months)))
  /\ length (concat (month_rows env <$> months)) =
     sum_list_with (fun ym => length (month_rows env ym)) months
  /\ (forall env',
        clock env' = clock env ->
        (forall ym, ym ∈ months ->
           month_promise env' ym <> Pending /\ month_rows env' ym = month_rows env ym) ->
        exists t', (fetchAndParseCSV force env' sv).2 =
                   Fulfilled t' (concat (month_rows env <$> months))).
Proof.
  intros months Hsettle (ym & Hym & Hrows).
  assert (Hlen : length (concat (month_rows env <$> months)) =
                 sum_list_with (fun ym => length (month_rows env ym)) months).
  { change (concat ?l) with (Arr.flat l). by rewrite length_flat, sum_list_with_fmap. }
  assert (Hpos : Nat.eqb (length (concat (month_rows env <$> months))) 0 = false).
  { apply Nat.eqb_neq. rewrite Hlen.
    pose proof (sum_list_with_in ym (fun ym => length (month_rows env ym)) months Hym) as Hle.
    simpl in Hle. destruct (month_rows env ym); [done|]. simpl in Hle. lia. }
  split; [|split; [exact Hlen|]].
  - destruct (fetchAndParseCSV_settled force env sv Hsettle) as [t Ht].
    exists t. rewrite Ht. unfold Arr.flat. fold months. by rewrite Hpos.
  - intros env' Hclock Hsame.
    assert (Hrows' : month_rows env' <$> months = month_rows env <$> months).
    { apply list_fmap_ext. intros i ym' Hlook. apply Hsame.
      by eapply list_elem_of_lookup_2. }
    destruct (fetchAndParseCSV_settled force env' sv) as [t Ht].
    { rewrite Hclock. intros ym' Hym'. by apply Hsame. }
    exists t. rewrite Ht, Hclock. fold months. unfold Arr.flat.
    by rewrite Hrows', Hpos.
Qed.

Lemma promise_pending_dec {A} (p : promise A) : {p <> Pending} + {p = Pending}.
Proof. destruct p; [left|left|right]; done. Qed.

Lemma fetchAndParseCSV_pending force env sv :
  (fetchAndParseCSV force env sv).2 = Pending <->
  exists ym, ym ∈ getAllMonths (clock env) /\ month_promise env ym = Pending.
Proof.
  split.
  - intros Hp.
    destruct (Forall_Exists_dec (fun ym => month_promise env ym <> Pending)
                (fun ym => month_promise env ym = Pending)
                (fun ym => promise_pending_dec (month_promise env ym))
                (getAllMonths (clock env))) as [Hall|Hex].
    + rewrite Forall_forall in Hall.
      destruct (fetchAndParseCSV_settled force env sv Hall) as [t Ht].
      rewrite Hp in Ht. by destruct (Nat.eqb _ 0).
    + by apply Exists_exists in Hex.
  - intros (ym & Hym & Hp). rewrite fetchAndParseCSV_promise.
    rewrite all_pending; [done| |].
    + intros t e (ym' & Heq & _)%list_elem_of_fmap.
      symmetry in Heq. by apply month_promise_not_rejected in Heq.
    + rewrite <- Hp. by apply list_elem_of_fmap_2.
Qed.

(** C8 (as the code has it): no request carries a timeout.  The refresh
    stays pending exactly when some month's chain never settles, which is
    when its request is never answered or an accepted response never
    delivers its body; only a failure that does settle (a rejected request,
    a status that is not ok, an unreadable body, a parse error) makes the
    month contribute an empty row sequence. *)
Theorem refresh_waits_for_every_month force env sv :
  ((fetchAndParseCSV force env sv).2 = Pending <->
   exists ym, ym ∈ getAllMonths (clock env) /\ month_promise env ym = Pending)
  /\ (forall ym,
        month_promise env ym = Pending <->
        fetch env (makeCsvUrl ym) = Pending \/
        exists t res, fetch env (makeCsvUrl ym) = Fulfilled t res /\
                      ok res = true /\ text res = Pending)
  /\ (forall ym,
        (exists t e, fetch env (makeCsvUrl ym) = Rejected t e) \/
        (exists t res, fetch env (makeCsvUrl ym) = Fulfilled t res /\
           (ok res = false \/
            (exists u e, text res = Rejected u e) \/
            (exists u txt e, text res = Fulfilled u txt /\ parse env txt = Throw e))) ->
        exists t, month_promise env ym = Fulfilled t []).
Proof.
  split; [apply fetchAndParseCSV_pending|].
  split; intros ym; [apply month_promise_pending|apply month_promise_failure].
Qed.

(** C8 fails as stated: when the request for February 2025 is accepted
    and never answered, the month is not turned into an empty contribution
    and the refresh never completes, although January's rows arrived. *)
Lemma stalled_month_stalls_refresh :
  fetch Sample.env_stalled (makeCsvUrl "202502") = Pending
  /\ month_promise Sample.env_stalled "202501" = Fulfilled 9 [Sample.row_jan]
  /\ month_promise Sample.env_stalled "202502" = Pending
  /\ (forall t, month_promise Sample.env_stalled "202502" <> Fulfilled t [])
  /\ (fetchAndParseCSV true Sample.env_stalled initial_server).2 = Pending.
Proof.
  assert (H2 : month_promise Sample.env_stalled "202502" = Pending)
    by (vm_compute; reflexivity).
  split; [vm_compute; reflexivity|]. split; [vm_compute; reflexivity|].
  split; [exact H2|]. split; [intros t; by rewrite H2|].
  vm_compute. reflexivity.
Qed.

(** C10: the argument of fetchAndParseCSV is never read: with the same
    clock, remote source and parser, the call with [true] and the call with
    [false] return the same promise (the same dataset, the same error or no
    completion at all) and issue the same requests. *)
Theorem fetchAndParseCSV_ignores_force env sv :
  fetchAndParseCSV true env sv = fetchAndParseCSV false env sv.
Proof. reflexivity. Qed.

(** ** The scheduled refresh and the startup code *)

(** A scheduled refresh assigns neither [cachedData] nor [cachedDates]. *)
Lemma refresh_tick_snapshot env sv : snapshot (refresh_tick env sv).1 = snapshot sv.
Proof. reflexivity. Qed.

Lemma refresh_tick_log env sv :
  (refresh_tick env sv).2 =
  match (fetchAndParseCSV true env sv).2 with
  | Fulfilled t _ => Fulfilled (Nat.max t 0) LogRefreshed
  | Rejected t err => Fulfilled (Nat.max t 0) (LogRefreshError err)
  | Pending => Pending
  end.
Proof.
  unfold refresh_tick. destruct (fetchAndParseCSV true env sv) as [sv' p]. simpl.
  by destruct p.
Qed.

(** The startup code, by cases on the first download. *)
Lemma bootstrap_cases env sv :
  bootstrap env sv =
  let sv1 := request_all (makeCsvUrl <$> getAllMonths (clock env)) sv in
  match (fetchAndParseCSV true env sv).2 with
  | Fulfilled t data =>
      (set_cachedDates (extractDates data) (set_cachedData data sv1),
       Fulfilled t Listening)
  | Rejected t err => (sv1, Fulfilled t (Exited 1))
  | Pending => (sv1, Pending)
  end.
Proof. reflexivity. Qed.

(** C1 fails on the code: the server holds January's row, the scheduled
    refresh downloads a dataset made of February's row and logs that the
    data were refreshed, and the server still holds and serves January's
    row; the startup code, given the same download, installs it. *)
Lemma scheduled_refresh_keeps_old_snapshot :
  (fetchAndParseCSV true Sample.env_later Sample.server_jan).2
    = Fulfilled 3 [Sample.row_feb]
  /\ (refresh_tick Sample.env_later Sample.server_jan).2 = Fulfilled 3 LogRefreshed
  /\ cachedData (refresh_tick Sample.env_later Sample.server_jan).1
       = Some [Sample.row_jan]
  /\ cachedDates (refresh_tick Sample.env_later Sample.server_jan).1
       = Some [Some "01/02/2025"]
  /\ cachedData (refresh_tick Sample.env_later Sample.server_jan).1
       <> Some [Sample.row_feb]
  /\ (@get_dates unit Sample.env_march (refresh_tick Sample.env_later Sample.server_jan).1).2
       = Fulfilled 0 (json (JsonDates [Some "01/02/2025"]))
  /\ snapshot (bootstrap Sample.env_later Sample.server_jan).1
       = (Some [Sample.row_feb], Some [Some "02/18/2025"]).
Proof.
  repeat split; try (vm_compute; reflexivity).
  vm_compute. discriminate.
Qed.

(** ** The date index ([extractDates]) *)

Section FirstSeen.
Context {A : Type} `{EqDecision A}.
Implicit Types (a b x : A) (l k xs seen set : list A).

Lemma first_pos_le a l : (first_pos a l <= length l)%nat.
Proof. induction l as [|x l IH]; simpl; [lia|]. case_bool_decide; lia. Qed.

Lemma first_pos_elem a l : a ∈ l <-> (first_pos a l < length l)%nat.
Proof.
  induction l as [|x l IH]; simpl.
  - rewrite elem_of_nil. lia.
  - rewrite elem_of_cons. case_bool_decide as Hx.
    + subst x. split; [lia|by left].
    + rewrite IH. split; [intros [?|?]; [congruence|lia]|right; lia].
Qed.

Lemma first_pos_app_l a l k : a ∈ l -> first_pos a (l ++ k) = first_pos a l.
Proof.
  induction l as [|x l IH]; simpl; [by intros ?%elem_of_nil|].
  intros Hin. case_bool_decide as Hx; [done|].
  apply elem_of_cons in Hin as [->|Hin]; [done|]. by rewrite IH.
Qed.

Lemma first_pos_app_r a l k :
  a ∉ l -> first_pos a (l ++ k) = (length l + first_pos a k)%nat.
Proof.
  induction l as [|x l IH]; simpl; [done|].
  intros Hnot. apply not_elem_of_cons in Hnot as [Hne Hnot].
  rewrite bool_decide_eq_false_2 by congruence. by rewrite IH.
Qed.

Lemma Set_add_first_seen set seen x :
  first_seen_order set seen -> first_seen_order (Arr.Set_add set x) (seen ++ [x]).
Proof.
  intros (Hnd & Hmem & Hord). unfold Arr.Set_add. case_bool_decide as Hx.
  - split; [done|]. split.
    + intros a. rewrite elem_of_app, list_elem_of_singleton, <- Hmem.
      split; [by left|]. intros [?| ->]; done.
    + intros i j a b Hi Hj Hij.
      rewrite !first_pos_app_l; [by eapply Hord| |].
      * apply Hmem. by eapply list_elem_of_lookup_2.
      * apply Hmem. by eapply list_elem_of_lookup_2.
  - split; [|split].
    + apply NoDup_app. split; [done|]. split; [|apply NoDup_singleton].
      intros a Ha Hax%list_elem_of_singleton. by subst a.
    + intros a. rewrite !elem_of_app, Hmem. done.
    + intros i j a b Hi Hj Hij.
      assert (Hia : set !! i = Some a).
      { apply lookup_lt_Some in Hj. rewrite length_app in Hj. simpl in Hj.
        rewrite lookup_app_l in Hi by lia. done. }
      assert (Ha : a ∈ seen) by (apply Hmem; by eapply list_elem_of_lookup_2).
      rewrite (first_pos_app_l a) by done.
      destruct (decide (j < length set)%nat) as [Hjl|Hjl].
      * rewrite lookup_app_l in Hj by done.
        rewrite first_pos_app_l; [by eapply Hord|].
        apply Hmem. by eapply list_elem_of_lookup_2.
      * rewrite lookup_app_r in Hj by lia.
        apply list_lookup_singleton_Some in Hj as [_ <-].
        rewrite first_pos_app_r by (by rewrite <- Hmem).
        apply first_pos_elem in Ha. lia.
Qed.

Lemma foldl_Set_add_first_seen xs set seen :
  first_seen_order set seen ->
  first_seen_order (foldl Arr.Set_add set xs) (seen ++ xs).
Proof.
  revert set seen. induction xs as [|x xs IH]; intros set seen Hinv; simpl.
  - by rewrite app_nil_r.
  - rewrite (cons_middle x seen xs), app_assoc. apply IH.
    by apply Set_add_first_seen.
Qed.

Lemma from_Set_first_seen xs : first_seen_order (Arr.from_Set xs) xs.
Proof.
  apply (foldl_Set_add_first_seen xs [] []).
  split; [apply NoDup_nil_2|]. split; [done|].
  intros i j a b Hi. by rewrite lookup_nil in Hi.
Qed.

End FirstSeen.

(** C6: for every dataset, the list extractDates returns has no duplicate,
    holds exactly the values of the Date column, and lists them in the
    order of their first occurrences in the dataset. *)
Theorem extractDates_distinct_first_seen (records : Dataset) :
  let column := (fun r => Obj.get r "Date") <$> records in
  NoDup (extractDates records)
  /\ (forall d, d ∈ extractDates records <-> d ∈ column)
  /\ (forall i j a b,
        extractDates records !! i = Some a ->
        extractDates records !! j = Some b ->
        (i < j)%nat ->
        (first_pos a column < first_pos b column)%nat).
Proof. intros column. apply from_Set_first_seen. Qed.

(** ** The query handlers *)

Lemma get_key (record : Row) (key : string) :
  key ∈ Obj.keys record -> exists cell, Obj.get record key = Some cell.
Proof.
  unfold Obj.keys. induction record as [|[k v] record IH]; simpl.
  - by intros ?%elem_of_nil.
  - intros Hin. case_bool_decide as Hk; [by exists v|].
    apply elem_of_cons in Hin as [->|Hin]; [done|]. by apply IH.
Qed.

Lemma find_date_Some (data : Dataset) (date : string) :
  (exists r, r ∈ data /\ Obj.get r "Date" = Some date) ->
  exists record,
    Arr.find (fun r => bool_decide (Obj.get r "Date" = Some date)) data = Some record
    /\ record ∈ data /\ Obj.get record "Date" = Some date.
Proof.
  unfold Arr.find. intros (r & Hr & Hdate).
  destruct (List.find _ data) as [record|] eqn:Hfind.
  - apply find_some in Hfind as [Hin Hb]. exists record.
    split; [done|]. split; [by apply list_elem_of_In|].
    by apply bool_decide_eq_true in Hb.
  - apply list_elem_of_In in Hr. apply (find_none _ _ Hfind r) in Hr.
    by apply bool_decide_eq_false in Hr.
Qed.

Lemma find_date_None (data : Dataset) (date : string) :
  (forall r, r ∈ data -> Obj.get r "Date" <> Some date) ->
  Arr.find (fun r => bool_decide (Obj.get r "Date" = Some date)) data = None.
Proof.
  unfold Arr.find. intros Hnone.
  destruct (List.find _ data) as [record|] eqn:Hfind; [|done].
  apply find_some in Hfind as [Hin Hb]. apply bool_decide_eq_true in Hb.
  by apply Hnone in Hb; [|apply list_elem_of_In].
Qed.

(** With [cachedData] set, the opening statement of a handler reads the
    variable and calls nothing. *)
Lemma load_cachedData_cached env sv data :
  cachedData sv = Some data ->
  load_cachedData env sv = (sv, Fulfilled 0 (sv, data)).
Proof. unfold load_cachedData. by intros ->. Qed.

(** With [cachedData] unset, it leaves the variables alone unless the
    download succeeds. *)
Lemma load_cachedData_failed env sv :
  cachedData sv = None ->
  (forall t data, (fetchAndParseCSV false env sv).2 <> Fulfilled t data) ->
  snapshot (load_cachedData env sv).1 = snapshot sv
  /\ forall t x, (load_cachedData env sv).2 <> Fulfilled t x.
Proof.
  unfold load_cachedData. intros -> Hfail.
  destruct (fetchAndParseCSV false env sv) as [sv' p] eqn:Heq.
  assert (Hsv : sv' = (fetchAndParseCSV false env sv).1) by by rewrite Heq.
  simpl in Hfail. split.
  - rewrite Hsv. reflexivity.
  - destruct p; simpl; try done. by destruct (Hfail at_ value).
Qed.

Lemma load_cachedDates_data data sv :
  cachedData (load_cachedDates data sv).1 = cachedData sv
  /\ requested (load_cachedDates data sv).1 = requested sv.
Proof. unfold load_cachedDates. by destruct (cachedDates sv). Qed.

Section Properties.
Context {number : Type} (parseFloat : string -> number).

(** A handler whose download does not succeed sends 500 or nothing, and
    leaves the variables as they were. *)
Lemma after_load_failed (loading : Server * promise (Server * Dataset))
    (k : Server -> Dataset -> Server * outcome (@Reply number)) :
  (forall t x, loading.2 <> Fulfilled t x) ->
  (after_load loading k).1 = loading.1.
Proof.
  destruct loading as [sv p]. simpl. intros Hfail.
  destruct p as [t [sv' data]|t e|]; [by destruct (Hfail t (sv', data))|done..].
Qed.

Lemma handle_failed_load q env sv :
  cachedData sv = None ->
  (forall t data, (fetchAndParseCSV false env sv).2 <> Fulfilled t data) ->
  snapshot (handle parseFloat q env sv).1 = snapshot sv.
Proof.
  intros Hnone Hfail.
  destruct (load_cachedData_failed env sv Hnone Hfail) as [Hsnap Hp].
  destruct q as [|[date|]|]; simpl; unfold get_dates, get_yield_curve, get_yield_curves.
  - by rewrite after_load_failed.
  - case_bool_decide; [done|]. by rewrite after_load_failed.
  - done.
  - by rewrite after_load_failed.
Qed.

(** With [cachedData] set, a handler answers at once, issues no request
    and leaves [cachedData] as it is. *)
Lemma handle_cached q env sv data :
  cachedData sv = Some data ->
  (exists reply, (handle parseFloat q env sv).2 = Fulfilled 0 reply)
  /\ cachedData (handle parseFloat q env sv).1 = Some data
  /\ requested (handle parseFloat q env sv).1 = requested sv.
Proof.
  intros Hdata.
  destruct q as [|[date|]|]; simpl; unfold get_dates, get_yield_curve, get_yield_curves.
  - rewrite (load_cachedData_cached _ _ _ Hdata). simpl.
    destruct (load_cachedDates_data data sv) as [Hd Hr].
    destruct (load_cachedDates data sv) as [sv' dates]. simpl in *.
    destruct (Nat.eqb (length dates) 0); simpl; (split; [by eexists|]); by rewrite Hd, Hr.
  - case_bool_decide; [by (split; [eexists|])|].
    rewrite (load_cachedData_cached _ _ _ Hdata). simpl.
    destruct (Arr.find _ data) as [record|]; simpl; [|by (split; [eexists|])].
    destruct (Nat.eqb (length (List.filter is_maturity (Obj.keys record))) 0);
      simpl; by (split; [eexists|]).
  - by (split; [eexists|]).
  - rewrite (load_cachedData_cached _ _ _ Hdata). simpl.
    destruct (load_cachedDates_data data sv) as [Hd Hr].
    destruct (load_cachedDates data sv) as [sv' dates]. simpl in *.
    destruct (Nat.eqb (length data) 0); simpl; (split; [by eexists|]); by rewrite Hd, Hr.
Qed.

(** Once the server listens, [cachedData] holds a dataset. *)
Lemma serving_cachedData sv :
  serving parseFloat sv -> exists data, cachedData sv = Some data.
Proof.
  induction 1 as [env t sv Hboot|a env sv Hserv [data Hdata]].
  - rewrite bootstrap_cases in Hboot. cbv zeta in Hboot.
    destruct (fetchAndParseCSV true env initial_server).2 as [u data|u e|].
    + injection Hboot as <- _. by exists data.
    + injection Hboot as _ _ Hexit. discriminate Hexit.
    + injection Hboot as _ Hp. discriminate Hp.
  - exists data. destruct a as [q| |]; simpl.
    + by apply handle_cached.
    + done.
    + done.
Qed.


(** A download that succeeds has at least one row. *)
Lemma fetchAndParseCSV_fulfilled_rows force env sv t data :
  (fetchAndParseCSV force env sv).2 = Fulfilled t data -> data <> [].
Proof.
  rewrite fetchAndParseCSV_promise.
  destruct (Promise.all _) as [u arr|u e|]; simpl; [|done..].
  destruct (Nat.eqb (length (Arr.flat arr)) 0) eqn:Hlen; simpl; [done|].
  intros [= _ <-]. apply Nat.eqb_neq in Hlen. by destruct (Arr.flat arr).
Qed.

Lemma extractDates_rows (data : Dataset) : data <> [] -> extractDates data <> [].
Proof.
  intros Hne Hnil. destruct data as [|r data']; [done|].
  destruct (from_Set_first_seen ((fun r => Obj.get r "Date") <$> (r :: data')))
    as (_ & Hmem & _).
  fold (extractDates (r :: data')) in Hmem. rewrite Hnil in Hmem.
  apply (elem_of_nil (Obj.get r "Date")), Hmem. left.
Qed.

(** With both variables set, a handler changes nothing at all. *)
Lemma handle_snapshot_set q env sv data dates :
  cachedData sv = Some data -> cachedDates sv = Some dates ->
  (handle parseFloat q env sv).1 = sv.
Proof.
  intros Hdata Hdates.
  destruct q as [|[date|]|]; simpl; unfold get_dates, get_yield_curve, get_yield_curves.
  - rewrite (load_cachedData_cached _ _ _ Hdata). simpl.
    unfold load_cachedDates. rewrite Hdates. by destruct (Nat.eqb _ 0).
  - case_bool_decide; [done|].
    rewrite (load_cachedData_cached _ _ _ Hdata). simpl.
    destruct (Arr.find _ data) as [record|]; simpl; [|done].
    by destruct (Nat.eqb (length (List.filter is_maturity (Obj.keys record))) 0).
  - done.
  - rewrite (load_cachedData_cached _ _ _ Hdata). simpl.
    unfold load_cachedDates. rewrite Hdates. by destruct (Nat.eqb _ 0).
Qed.

(** Once the server listens, the two variables hold a non-empty dataset and
    the date index of that same dataset. *)
Lemma serving_snapshot sv :
  serving parseFloat sv ->
  exists data, data <> [] /\ cachedData sv = Some data
               /\ cachedDates sv = Some (extractDates data).
Proof.
  induction 1 as [env t sv Hboot|a env sv Hserv (data & Hne & Hdata & Hdates)].
  - rewrite bootstrap_cases in Hboot. cbv zeta in Hboot.
    destruct (fetchAndParseCSV true env initial_server).2 as [u data|u e|] eqn:Hp.
    + injection Hboot as <- _. exists data.
      split; [by eapply fetchAndParseCSV_fulfilled_rows|done].
    + injection Hboot as _ _ Hexit. discriminate Hexit.
    + injection Hboot as _ Hp'. discriminate Hp'.
  - exists data. split; [done|]. destruct a as [q| |]; simpl.
    + by rewrite (handle_snapshot_set q env sv data _ Hdata Hdates).
    + done.
    + done.
Qed.

(** Once the server listens, the dates query sends the date index of the
    cached dataset and changes nothing. *)
Lemma serving_get_dates env sv :
  serving parseFloat sv ->
  exists data, cachedData sv = Some data
    /\ @get_dates number env sv = (sv, Fulfilled 0 (json (JsonDates (extractDates data)))).
Proof.
  intros (data & Hne & Hdata & Hdates)%serving_snapshot.
  exists data. split; [done|]. unfold get_dates.
  rewrite (load_cachedData_cached _ _ _ Hdata). simpl.
  unfold load_cachedDates. rewrite Hdates.
  apply extractDates_rows in Hne. by destruct (extractDates data).
Qed.

Lemma no_rows_in_total env (months : list string) :
  (forall ym, ym ∈ months -> exists t, month_promise env ym = Fulfilled t []) ->
  sum_list_with (fun ym => length (month_rows env ym)) months = O.
Proof.
  induction months as [|ym months IH]; intros Hempty; [done|].
  simpl. rewrite IH by (intros ym' Hym'; apply Hempty; by right).
  unfold month_rows. destruct (Hempty ym) as [u ->]; [left|done].
Qed.

(** C3: if every month contributes an empty row sequence (its request or
    its parse failed, or it had no rows), fetchAndParseCSV is rejected with
    the error "Parsed CSVs are empty." and [cachedData] and [cachedDates]
    are what they were: after the call itself, after a scheduled refresh
    (which logs the error), after the startup code (which exits with code 1)
    and after a handler that tried the download because nothing was cached. *)
Theorem all_months_empty_is_unavailable force env sv :
  (forall ym, ym ∈ getAllMonths (clock env) ->
     exists t, month_promise env ym = Fulfilled t []) ->
  (exists t, (fetchAndParseCSV force env sv).2 =
             Rejected t (mkError "Parsed CSVs are empty."))
  /\ snapshot (fetchAndParseCSV force env sv).1 = snapshot sv
  /\ snapshot (refresh_tick env sv).1 = snapshot sv
  /\ (exists t, (refresh_tick env sv).2 =
                Fulfilled t (LogRefreshError (mkError "Parsed CSVs are empty.")))
  /\ snapshot (bootstrap env sv).1 = snapshot sv
  /\ (exists t, (bootstrap env sv).2 = Fulfilled t (Exited 1))
  /\ (forall q, cachedData sv = None ->
        snapshot (handle parseFloat q env sv).1 = snapshot sv).
Proof.
  intros Hempty.
  assert (Hrej : forall force', exists t, (fetchAndParseCSV force' env sv).2 =
             Rejected t (mkError "Parsed CSVs are empty.")).
  { intros force'.
    destruct (fetchAndParseCSV_settled force' env sv) as [t Ht].
    { intros ym Hym. destruct (Hempty ym Hym) as [u ->]. done. }
    exists t. rewrite Ht.
    by rewrite length_flat, sum_list_with_fmap, no_rows_in_total. }
  split; [apply Hrej|]. split; [reflexivity|]. split; [reflexivity|].
  destruct (Hrej true) as [t Ht].
  split; [|split; [|split]].
  - rewrite refresh_tick_log, Ht. by eexists.
  - rewrite bootstrap_cases, Ht. reflexivity.
  - rewrite bootstrap_cases, Ht. by eexists.
  - intros q Hnone. apply handle_failed_load; [done|].
    intros u data. destruct (Hrej false) as [t' ->]. done.
Qed.

(** C5: in every state a listening server can reach, [cachedData] holds a
    dataset, so that the opening statement of each of the three handlers
    reads the variable without calling fetchAndParseCSV: whatever the query
    and the world it meets, no request is issued, the reply does not wait,
    and [cachedData] stays as it is. *)
Theorem serving_queries_never_fetch sv :
  serving parseFloat sv ->
  exists data,
    cachedData sv = Some data
    /\ forall q env,
         load_cachedData env sv = (sv, Fulfilled 0 (sv, data))
         /\ requested (handle parseFloat q env sv).1 = requested sv
         /\ (exists reply, (handle parseFloat q env sv).2 = Fulfilled 0 reply)
         /\ cachedData (handle parseFloat q env sv).1 = Some data.
Proof.
  intros Hserv. destruct (serving_cachedData sv Hserv) as [data Hdata].
  exists data. split; [done|]. intros q env.
  destruct (handle_cached q env sv data Hdata) as (Hreply & Hd & Hr).
  split; [by apply load_cachedData_cached|]. done.
Qed.

(** C7 (as the code has it): for every non-empty queried date that no row
    of the cached dataset carries in its Date column, the yield-curve query
    answers 404 "Date not found" at once and leaves the server as it was. *)
Theorem unknown_date_not_found env sv data date :
  cachedData sv = Some data ->
  date <> "" ->
  (forall r, r ∈ data -> Obj.get r "Date" <> Some date) ->
  get_yield_curve parseFloat (Some date) env sv =
  (sv, Fulfilled 0 (fail 404 "Date not found")).
Proof.
  intros Hdata Hne Hnone. unfold get_yield_curve.
  rewrite bool_decide_eq_false_2 by done.
  rewrite (load_cachedData_cached _ _ _ Hdata). simpl.
  by rewrite find_date_None.
Qed.

(** C4 (as the code has it): for every non-empty date that some row of the
    cached dataset carries, the yield-curve query takes the first such row
    and answers from that row's own columns: with at least one column name
    matching the pattern, status 200 and one pair per such column, in the
    row's column order, the rate null for an empty cell and the parsed
    number otherwise; with none, status 500.  The columns are those of the
    dataset's first row whenever that row has the same column names. *)
Theorem known_date_curve env sv data date :
  cachedData sv = Some data ->
  date <> "" ->
  (exists r, r ∈ data /\ Obj.get r "Date" = Some date) ->
  exists record,
    Arr.find (fun r => bool_decide (Obj.get r "Date" = Some date)) data = Some record
    /\ record ∈ data
    /\ Obj.get record "Date" = Some date
    /\ let maturities := List.filter is_maturity (Obj.keys record) in
       get_yield_curve parseFloat (Some date) env sv =
         (sv, Fulfilled 0
            (if bool_decide (maturities = [])
             then fail 500 "No maturity columns found for this date."
             else json (JsonCurve date
                    ((fun m => (m, rate_of parseFloat record m)) <$> maturities))))
       /\ (forall m, m ∈ maturities ->
             m ∈ Obj.keys record /\ is_maturity m = true /\
             exists cell, Obj.get record m = Some cell /\
               rate_of parseFloat record m =
               if bool_decide (cell = "") then None else Some (parseFloat cell))
       /\ (forall first,
             head data = Some first -> Obj.keys first = Obj.keys record ->
             extractMaturities data = Return maturities).
Proof.
  intros Hdata Hne Hknown.
  destruct (find_date_Some data date Hknown) as (record & Hfind & Hin & Hdate).
  exists record. split; [done|]. split; [done|]. split; [done|].
  intros maturities. split; [|split].
  - unfold get_yield_curve. rewrite bool_decide_eq_false_2 by done.
    rewrite (load_cachedData_cached _ _ _ Hdata). simpl. rewrite Hfind. simpl.
    fold maturities. destruct maturities as [|m ms]; reflexivity.
  - intros m Hm. apply list_elem_of_In, filter_In in Hm as [Hkey Hmat].
    apply list_elem_of_In in Hkey. split; [done|]. split; [done|].
    destruct (get_key record m Hkey) as [cell Hcell]. exists cell.
    split; [done|]. unfold rate_of. by rewrite Hcell.
  - intros first Hhead Hkeys. destruct data as [|r0 data']; [done|].
    injection Hhead as ->. simpl. unfold maturities. by rewrite Hkeys.
Qed.

End Properties.

(** ** The theorems at the sample data *)

Lemma months_march :
  getAllMonths (clock Sample.env_march) = ["202501"; "202502"; "202503"].
Proof. vm_compute. reflexivity. Qed.

(** March 2025, January and February published: the dataset is January's
    row followed by February's, although February answered first. *)
Lemma fetchAndParseCSV_concatenates_witness :
  exists t, (fetchAndParseCSV true Sample.env_march initial_server).2 =
            Fulfilled t [Sample.row_jan; Sample.row_feb].
Proof.
  destruct (fetchAndParseCSV_concatenates true Sample.env_march initial_server)
    as [Hdata _].
  - apply Forall_forall. rewrite months_march.
    repeat constructor; vm_compute; discriminate.
  - exists "202501". split.
    + rewrite months_march. left.
    + vm_compute. discriminate.
  - exact Hdata.
Defined.

(** The source is down: the download is rejected and a server that holds
    January's row keeps it through the scheduled refresh. *)
Lemma all_months_empty_is_unavailable_witness :
  (exists t, (fetchAndParseCSV true Sample.env_down Sample.server_jan).2 =
             Rejected t (mkError "Parsed CSVs are empty."))
  /\ snapshot (refresh_tick Sample.env_down Sample.server_jan).1 =
     snapshot Sample.server_jan.
Proof.
  destruct (all_months_empty_is_unavailable Sample.parseFloat true
              Sample.env_down Sample.server_jan) as (Hrej & _ & Htick & _).
  - intros ym _. exists 1%nat. reflexivity.
  - exact (conj Hrej Htick).
Defined.

(** The server that the startup code leaves in March 2025 is listening;
    a query that reaches it while the source is down issues no request. *)
Lemma serving_queries_never_fetch_witness :
  serving Sample.parseFloat (bootstrap Sample.env_march initial_server).1
  /\ exists data,
       cachedData (bootstrap Sample.env_march initial_server).1 = Some data
       /\ requested (handle Sample.parseFloat (GetYieldCurve (Some "01/02/2025"))
                       Sample.env_down (bootstrap Sample.env_march initial_server).1).1
          = requested (bootstrap Sample.env_march initial_server).1.
Proof.
  assert (Hserv : serving Sample.parseFloat (bootstrap Sample.env_march initial_server).1).
  { apply (serving_started Sample.parseFloat Sample.env_march 9%nat).
    vm_compute. reflexivity. }
  split; [exact Hserv|].
  destruct (serving_queries_never_fetch Sample.parseFloat _ Hserv) as (data & Hdata & Hq).
  exists data. split; [exact Hdata|].
  destruct (Hq (GetYieldCurve (Some "01/02/2025")) Sample.env_down) as (_ & Hreq & _).
  exact Hreq.
Defined.

(** No sample row is dated 12/25/2025. *)
Lemma unknown_date_not_found_witness :
  get_yield_curve Sample.parseFloat (Some "12/25/2025") Sample.env_march
    Sample.server_three =
  (Sample.server_three, Fulfilled 0 (fail 404 "Date not found")).
Proof.
  apply (unknown_date_not_found Sample.parseFloat Sample.env_march
           Sample.server_three [Sample.row_jan; Sample.row_feb; Sample.row_plain]).
  - reflexivity.
  - discriminate.
  - apply Forall_forall. repeat constructor; vm_compute; discriminate.
Defined.

(** C7 fails as stated for the empty date: no sample row has an empty Date,
    and the query [?date=] is answered 400 "Missing date param", not 404. *)
Lemma empty_date_is_bad_request :
  (forall r, r ∈ [Sample.row_jan; Sample.row_feb; Sample.row_plain] ->
     Obj.get r "Date" <> Some "")
  /\ get_yield_curve Sample.parseFloat (Some "") Sample.env_march Sample.server_three
     = (Sample.server_three, Fulfilled 0 (fail 400 "Missing date param"))
  /\ get_yield_curve Sample.parseFloat (Some "") Sample.env_march Sample.server_three
     <> (Sample.server_three, Fulfilled 0 (fail 404 "Date not found")).
Proof.
  split; [|split].
  - apply Forall_forall. repeat constructor; vm_compute; discriminate.
  - reflexivity.
  - vm_compute. discriminate.
Qed.

(** The curve of 02/18/2025 at the server that holds the three sample rows. *)
Lemma known_date_curve_witness :
  get_yield_curve Sample.parseFloat (Some "02/18/2025") Sample.env_march
    Sample.server_three =
  (Sample.server_three,
   Fulfilled 0 (json (JsonCurve "02/18/2025"
     [("1 Mo", Some (Some (437, 2%nat)));
      ("1.5 Month", Some (Some (435, 2%nat)));
      ("1 YR", None)]))).
Proof.
  destruct (known_date_curve Sample.parseFloat Sample.env_march Sample.server_three
              [Sample.row_jan; Sample.row_feb; Sample.row_plain] "02/18/2025")
    as (record & Hfind & _ & _ & Hreply & _).
  - reflexivity.
  - discriminate.
  - exists Sample.row_feb. split; [|reflexivity].
    rewrite !elem_of_cons. right. by left.
  - vm_compute in Hfind. injection Hfind as <-. exact Hreply.
Defined.

(** C4 fails as stated: the dataset's first row has the maturity columns
    1 Mo and 1 YR, the row of 02/18/2025 has 1.5 Month as well, and the
    curve sent for that date has the three columns of its own row; the row
    of 03/03/2025 has no maturity column and its date, although known, is
    answered 500. *)
Lemma curve_columns_are_the_matched_rows :
  extractMaturities [Sample.row_jan; Sample.row_feb; Sample.row_plain]
    = Return ["1 Mo"; "1 YR"]
  /\ (exists reply,
        (get_yield_curve Sample.parseFloat (Some "02/18/2025") Sample.env_march
           Sample.server_three).2 = Fulfilled 0 reply
        /\ status reply = 200
        /\ curve_maturities reply = ["1 Mo"; "1.5 Month"; "1 YR"]
        /\ Return (curve_maturities reply) <>
           extractMaturities [Sample.row_jan; Sample.row_feb; Sample.row_plain])
  /\ (get_yield_curve Sample.parseFloat (Some "03/03/2025") Sample.env_march
        Sample.server_three).2
     = Fulfilled 0 (fail 500 "No maturity columns found for this date.").
Proof.
  split; [vm_compute; reflexivity|]. split; [|vm_compute; reflexivity].
  eexists. split; [vm_compute; reflexivity|].
  split; [reflexivity|]. split; [reflexivity|]. vm_compute. discriminate.
Qed.

(** * Further properties of the code *)

(** ** The enumeration and the requests of a refresh *)

Lemma getAllMonths_tokens now :
  valid_date now ->
  getAllMonths now =
  token_at <$> seqZ (month_index 2025 0)
    (month_index (getFullYear now) (getMonth now) - month_index 2025 0 + 1).
Proof.
  intros Hv. unfold getAllMonths. simpl getFullYear. simpl getMonth.
  by rewrite getAllMonths_while_spec by (done || lia).
Qed.

Lemma string_app_inj_head (s1 s2 t1 t2 : string) :
  String.length s1 = String.length s2 ->
  s1 +:+ t1 = s2 +:+ t2 -> s1 = s2 /\ t1 = t2.
Proof.
  revert s2. induction s1 as [|c s1 IH]; intros [|d s2] Hlen Heq; try done.
  change (String c s1 +:+ t1) with (String c (s1 +:+ t1)) in Heq.
  change (String d s2 +:+ t2) with (String d (s2 +:+ t2)) in Heq.
  injection Heq as -> Heq. simpl in Hlen.
  destruct (IH s2) as [-> ->]; [lia|done|done].
Qed.

Lemma makeCsvUrl_same (ym1 ym2 : string) :
  makeCsvUrl ym1 = makeCsvUrl ym2 -> ym1 = ym2.
Proof.
  unfold makeCsvUrl. intros Heq. apply (inj (String.app _)) in Heq.
  assert (Hlen : String.length ym1 = String.length ym2).
  { apply (f_equal String.length) in Heq.
    rewrite !string_length_app in Heq. lia. }
  by destruct (string_app_inj_head _ _ _ _ Hlen Heq).
Qed.

#[local] Instance makeCsvUrl_Inj : Inj (=) (=) makeCsvUrl.
Proof. intros ym1 ym2. apply makeCsvUrl_same. Qed.

Lemma getAllMonths_NoDup now : valid_date now -> NoDup (getAllMonths now).
Proof. intros Hv. rewrite getAllMonths_tokens by done. apply tokens_NoDup. Qed.

(** X1: when the clock reads a month before January 2025, getAllMonths
    returns no token, and fetchAndParseCSV then makes no request and is
    rejected at once with "Parsed CSVs are empty.". *)
Theorem refresh_before_epoch force env sv :
  valid_date (clock env) ->
  getFullYear (clock env) < 2025 ->
  getAllMonths (clock env) = []
  /\ requested (fetchAndParseCSV force env sv).1 = requested sv
  /\ (fetchAndParseCSV force env sv).2 = Rejected 0 (mkError "Parsed CSVs are empty.").
Proof.
  intros Hv Hy.
  assert (Hnone : getAllMonths (clock env) = []).
  { rewrite getAllMonths_tokens by done. rewrite seqZ_nil; [done|].
    unfold month_index, valid_date in *. lia. }
  split; [done|]. split.
  - rewrite fetchAndParseCSV_server, Hnone. simpl. by rewrite app_nil_r.
  - by rewrite fetchAndParseCSV_promise, Hnone.
Qed.

Lemma refresh_before_epoch_witness :
  valid_date (clock SampleMore.env_early)
  /\ getFullYear (clock SampleMore.env_early) < 2025
  /\ (fetchAndParseCSV true SampleMore.env_early Sample.server_jan).2
     = Rejected 0 (mkError "Parsed CSVs are empty.").
Proof.
  assert (Hv : valid_date (clock SampleMore.env_early)) by (unfold valid_date; simpl; lia).
  assert (Hy : getFullYear (clock SampleMore.env_early) < 2025) by (simpl; lia).
  split; [exact Hv|]. split; [exact Hy|].
  exact (proj2 (proj2 (refresh_before_epoch true SampleMore.env_early Sample.server_jan Hv Hy))).
Defined.

(** X2: makeCsvUrl is injective: two month tokens with the same URL are the
    same token, whatever strings they are. *)
Theorem makeCsvUrl_inj (ym1 ym2 : string) :
  makeCsvUrl ym1 = makeCsvUrl ym2 <-> ym1 = ym2.
Proof. split; [apply makeCsvUrl_same|by intros ->]. Qed.

(** X3: one call of fetchAndParseCSV, and so one scheduled refresh, hands
    to fetch exactly one URL per month of the enumeration, in the order of
    the months and before any result is known; no URL occurs twice, and the
    two cache variables are not touched. *)
Theorem refresh_requests_each_month_once force env sv :
  valid_date (clock env) ->
  let urls := makeCsvUrl <$> getAllMonths (clock env) in
  requested (fetchAndParseCSV force env sv).1 = requested sv ++ urls
  /\ requested (refresh_tick env sv).1 = requested sv ++ urls
  /\ length urls = length (getAllMonths (clock env))
  /\ NoDup urls
  /\ snapshot (fetchAndParseCSV force env sv).1 = snapshot sv.
Proof.
  intros Hv urls. split; [reflexivity|]. split; [reflexivity|].
  split; [apply length_fmap|]. split; [|reflexivity].
  apply NoDup_fmap_2; [apply _|]. by apply getAllMonths_NoDup.
Qed.

Lemma refresh_requests_each_month_once_witness :
  valid_date (clock Sample.env_march)
  /\ requested (fetchAndParseCSV true Sample.env_march initial_server).1
     = [makeCsvUrl "202501"; makeCsvUrl "202502"; makeCsvUrl "202503"].
Proof.
  assert (Hv : valid_date (clock Sample.env_march)) by (unfold valid_date; simpl; lia).
  split; [exact Hv|].
  destruct (refresh_requests_each_month_once true Sample.env_march initial_server Hv)
    as [-> _].
  rewrite months_march. reflexivity.
Defined.

Lemma sum_list_with_zero {A} (f : A -> nat) (l : list A) :
  sum_list_with f l = O -> forall x, x ∈ l -> f x = O.
Proof.
  intros Hsum x Hx. pose proof (sum_list_with_in x f l Hx). lia.
Qed.

(** X4: what the promise of fetchAndParseCSV can be.  If it is fulfilled,
    every month's chain has settled and the value is the concatenation of
    the months' rows, which is not empty.  If it is rejected, every month's
    chain has settled, no month has a row, and the error is "Parsed CSVs
    are empty.": no error of a request, a status, a body or the parser
    ever leaves the function. *)
Theorem fetchAndParseCSV_outcomes force env sv :
  let months := getAllMonths (clock env) in
  (forall t data,
     (fetchAndParseCSV force env sv).2 = Fulfilled t data ->
     (forall ym, ym ∈ months -> month_promise env ym <> Pending)
     /\ data = concat (month_rows env <$> months)
     /\ data <> [])
  /\ (forall t e,
        (fetchAndParseCSV force env sv).2 = Rejected t e ->
        (forall ym, ym ∈ months -> month_promise env ym <> Pending)
        /\ (forall ym, ym ∈ months -> month_rows env ym = [])
        /\ e = mkError "Parsed CSVs are empty.").
Proof.
  intros months.
  assert (Hsettled : forall p, (fetchAndParseCSV force env sv).2 = p -> p <> Pending ->
            forall ym, ym ∈ months -> month_promise env ym <> Pending).
  { intros p Hp Hne ym Hym Hpend. apply Hne. rewrite <- Hp.
    apply fetchAndParseCSV_pending. by exists ym. }
  split.
  - intros t data Hful.
    assert (Hall := Hsettled _ Hful ltac:(done)).
    split; [done|].
    destruct (fetchAndParseCSV_settled force env sv Hall) as [u Hu].
    rewrite Hful in Hu. fold months in Hu.
    destruct (Nat.eqb _ 0) eqn:Hlen; [done|]. injection Hu as _ ->.
    split; [done|]. apply Nat.eqb_neq in Hlen.
    by destruct (Arr.flat _).
  - intros t e Hrej.
    assert (Hall := Hsettled _ Hrej ltac:(done)).
    split; [done|].
    destruct (fetchAndParseCSV_settled force env sv Hall) as [u Hu].
    rewrite Hrej in Hu. fold months in Hu.
    destruct (Nat.eqb _ 0) eqn:Hlen; [|done]. injection Hu as _ ->.
    split; [|done]. apply Nat.eqb_eq in Hlen.
    rewrite length_flat, sum_list_with_fmap in Hlen.
    intros ym Hym. apply (sum_list_with_zero _ _ Hlen) in Hym.
    by destruct (month_rows env ym).
Qed.

(** ** The handlers and the cache, in every state *)



Section PropertiesMore.
Context {number : Type} (parseFloat : string -> number).





Lemma reaches_snapshot sv0 sv data dates :
  cachedData sv0 = Some data -> cachedDates sv0 = Some dates ->
  reaches parseFloat sv0 sv -> snapshot sv = snapshot sv0.
Proof.
  intros Hdata Hdates Hreach. induction Hreach as [|a env sv Hreach IH]; [done|].
  injection IH as Hd Hds. rewrite Hdata in Hd. rewrite Hdates in Hds.
  destruct a as [q| |]; simpl.
  - rewrite (handle_snapshot_set parseFloat q env sv _ _ Hd Hds).
    unfold snapshot. by rewrite Hd, Hds, Hdata, Hdates.
  - unfold snapshot. by rewrite Hd, Hds, Hdata, Hdates.
  - unfold snapshot. simpl. by rewrite Hd, Hds, Hdata, Hdates.
Qed.

(** X6: what is served never changes after startup.  If the startup code
    succeeds, then after any sequence of queries, debug requests and
    scheduled refreshes, in whatever worlds, the two cache variables still
    hold the dataset of the startup download and its date index. *)
Theorem served_snapshot_never_changes env t sv0 sv :
  bootstrap env initial_server = (sv0, Fulfilled t Listening) ->
  reaches parseFloat sv0 sv ->
  exists data,
    (fetchAndParseCSV true env initial_server).2 = Fulfilled t data
    /\ cachedData sv = Some data
    /\ cachedDates sv = Some (extractDates data).
Proof.
  intros Hboot Hreach. rewrite bootstrap_cases in Hboot. cbv zeta in Hboot.
  destruct (fetchAndParseCSV true env initial_server).2 as [u data|u e|] eqn:Hp.
  - injection Hboot as <- <-. exists data. split; [done|].
    apply (reaches_snapshot _ _ data (extractDates data)) in Hreach; [|done..].
    by injection Hreach as -> ->.
  - injection Hboot as _ _ Hexit. discriminate Hexit.
  - injection Hboot as _ Hp'. discriminate Hp'.
Qed.

(** X7: once the server listens, the two bulk queries always succeed:
    the dates query answers 200 with the date index of the cached dataset,
    the yield-curves query answers 200 with the cached dataset and that same
    index, at once and without changing the server; neither can answer "No
    dates found in CSV." or "No yield curve data available". *)
Theorem serving_bulk_queries env sv :
  serving parseFloat sv ->
  exists data,
    data <> []
    /\ cachedData sv = Some data
    /\ cachedDates sv = Some (extractDates data)
    /\ @get_dates number env sv =
       (sv, Fulfilled 0 (json (JsonDates (extractDates data))))
    /\ @get_yield_curves number env sv =
       (sv, Fulfilled 0 (json (JsonData data (extractDates data)))).
Proof.
  intros Hserv.
  destruct (serving_snapshot parseFloat sv Hserv) as (data & Hne & Hdata & Hdates).
  exists data. split; [done|]. split; [done|]. split; [done|]. split.
  - destruct (serving_get_dates parseFloat env sv Hserv) as (data' & Hdata' & Hget).
    rewrite Hdata in Hdata'. by injection Hdata' as <-.
  - unfold get_yield_curves. rewrite (load_cachedData_cached _ _ _ Hdata). simpl.
    unfold load_cachedDates. rewrite Hdates. by destruct data.
Qed.

(** X8: once the server listens, the answer to a query depends on the
    cache alone: in two worlds with different clocks, networks and parsers
    the same query leaves the same server and sends the same reply. *)
Theorem serving_query_ignores_world q env env' sv :
  serving parseFloat sv ->
  handle parseFloat q env sv = handle parseFloat q env' sv.
Proof.
  intros (data & _ & Hdata & _)%serving_snapshot.
  destruct q as [|[date|]|]; simpl; unfold get_dates, get_yield_curve, get_yield_curves.
  - by rewrite !(load_cachedData_cached _ _ _ Hdata).
  - case_bool_decide; [done|]. by rewrite !(load_cachedData_cached _ _ _ Hdata).
  - done.
  - by rewrite !(load_cachedData_cached _ _ _ Hdata).
Qed.

(** The reply of a handler is the 500 of its [catch], or what the rest of
    its [try] block returns or throws. *)
Lemma after_load_reply (loading : Server * promise (Server * Dataset))
    (k : Server -> Dataset -> Server * outcome (@Reply number)) :
  (forall t e, (after_load loading k).2 <> Rejected t e)
  /\ forall t reply,
       (after_load loading k).2 = Fulfilled t reply ->
       (exists u e, loading.2 = Rejected u e /\ reply = fail 500 (message e))
       \/ (exists u sv' data, loading.2 = Fulfilled u (sv', data) /\
             ((k sv' data).2 = Return reply \/
              exists e, (k sv' data).2 = Throw e /\ reply = fail 500 (message e))).
Proof.
  destruct loading as [sv p]. simpl.
  destruct p as [u [sv' data]|u e|]; simpl.
  - destruct (k sv' data) as [sv'' [r|e]] eqn:Hk; simpl.
    + split; [done|]. intros t reply [= _ <-]. right. exists u, sv', data.
      split; [done|]. left. by rewrite Hk.
    + split; [done|]. intros t reply [= _ <-]. right. exists u, sv', data.
      split; [done|]. right. exists e. by rewrite Hk.
  - split; [done|]. intros t reply [= _ <-]. left. by exists u, e.
  - split; done.
Qed.

(** X9: the contract of the three query handlers, in every state and
    world.  A handler's promise is never rejected.  A reply has status 200
    and the body of its query, which is never empty (at least one date, one
    curve point, one row), or it has an error body with status 500, or, for
    the yield-curve query alone, 400 or 404. *)
Theorem handle_reply_contract q env sv :
  (forall t e, (handle parseFloat q env sv).2 <> Rejected t e)
  /\ forall t reply,
       (handle parseFloat q env sv).2 = Fulfilled t reply ->
       (status reply = 200 /\
        match q, body reply with
        | GetDates, JsonDates dates => dates <> []
        | GetYieldCurve (Some d), JsonCurve d' curve => d = d' /\ curve <> []
        | GetYieldCurves, JsonData data dates => data <> []
        | _, _ => False
        end)
       \/ (exists msg, body reply = JsonError msg /\
             (status reply = 500 \/
              exists date, q = GetYieldCurve date /\
                (status reply = 400 \/ status reply = 404))).
Proof.
  destruct q as [|[date|]|]; simpl; unfold get_dates, get_yield_curve, get_yield_curves.
  - destruct (after_load_reply (load_cachedData env sv) (fun sv data =>
        let '(sv, dates) := load_cachedDates data sv in
        if Nat.eqb (length dates) 0
        then (sv, Throw (mkError "No dates found in CSV."))
        else (sv, Return (json (JsonDates dates))))) as [Hrej Hrep].
    split; [exact Hrej|]. intros t reply Hful.
    destruct (Hrep t reply Hful) as [(u & e & _ & ->)|(u & sv' & data & _ & Hk)].
    { right. eexists. split; [done|]. by left. }
    destruct (load_cachedDates data sv') as [sv'' dates].
    destruct (Nat.eqb (length dates) 0) eqn:Hlen; simpl in Hk;
      destruct Hk as [Hk|(e & Hk & ->)]; try done.
    + right. eexists. split; [done|]. by left.
    + injection Hk as <-. left. split; [done|]. simpl.
      apply Nat.eqb_neq in Hlen. by destruct dates.
  - case_bool_decide as Hempty.
    { simpl. split; [done|]. intros t reply [= _ <-]. right. eexists.
      split; [done|]. right. exists (Some date). split; [done|]. by left. }
    destruct (after_load_reply (load_cachedData env sv) (fun sv data =>
        match Arr.find (fun r => bool_decide (Obj.get r "Date" = Some date)) data with
        | None => (sv, Return (fail 404 "Date not found"))
        | Some record =>
            match extractMaturities [record] with
            | Throw err => (sv, Throw err)
            | Return maturities =>
                if Nat.eqb (length maturities) 0
                then (sv, Throw (mkError "No maturity columns found for this date."))
                else (sv, Return (json (JsonCurve date
                       ((fun maturity => (maturity, rate_of parseFloat record maturity))
                          <$> maturities))))
            end
        end)) as [Hrej Hrep].
    split; [exact Hrej|]. intros t reply Hful.
    destruct (Hrep t reply Hful) as [(u & e & _ & ->)|(u & sv' & data & _ & Hk)].
    { right. eexists. split; [done|]. by left. }
    destruct (Arr.find _ data) as [record|]; simpl in Hk.
    + destruct (Nat.eqb (length (List.filter is_maturity (Obj.keys record))) 0) eqn:Hlen;
        simpl in Hk; destruct Hk as [Hk|(e & Hk & ->)]; try done.
      * right. eexists. split; [done|]. by left.
      * injection Hk as <-. left. split; [done|]. simpl. split; [done|].
        apply Nat.eqb_neq in Hlen.
        by destruct (List.filter is_maturity (Obj.keys record)).
    + destruct Hk as [Hk|(e & Hk & ->)]; [|done]. injection Hk as <-.
      right. eexists. split; [done|]. right. exists (Some date). split; [done|]. by right.
  - split; [done|]. intros t reply [= _ <-]. right. eexists.
    split; [done|]. right. exists None. split; [done|]. by left.
  - destruct (after_load_reply (load_cachedData env sv) (fun sv data =>
        let '(sv, dates) := load_cachedDates data sv in
        if Nat.eqb (length data) 0
        then (sv, Throw (mkError "No yield curve data available"))
        else (sv, Return (json (JsonData data dates))))) as [Hrej Hrep].
    split; [exact Hrej|]. intros t reply Hful.
    destruct (Hrep t reply Hful) as [(u & e & _ & ->)|(u & sv' & data & _ & Hk)].
    { right. eexists. split; [done|]. by left. }
    destruct (load_cachedDates data sv') as [sv'' dates].
    destruct (Nat.eqb (length data) 0) eqn:Hlen; simpl in Hk;
      destruct Hk as [Hk|(e & Hk & ->)]; try done.
    + right. eexists. split; [done|]. by left.
    + injection Hk as <-. left. split; [done|]. simpl.
      apply Nat.eqb_neq in Hlen. by destruct data.
Qed.

End PropertiesMore.

(** ** More on the date index *)

Section SetMore.
Context {A : Type} `{EqDecision A}.
Implicit Types (x : A) (xs ys set : list A).

Lemma foldl_Set_add_prefix ys set : set `prefix_of` foldl Arr.Set_add set ys.
Proof.
  revert set. induction ys as [|y ys IH]; intros set; simpl; [done|].
  etrans; [|apply IH]. unfold Arr.Set_add. case_bool_decide; [done|].
  by apply prefix_app_r.
Qed.

Lemma foldl_Set_add_known ys set :
  (forall y, y ∈ ys -> y ∈ set) -> foldl Arr.Set_add set ys = set.
Proof.
  revert set. induction ys as [|y ys IH]; intros set Hin; simpl; [done|].
  unfold Arr.Set_add at 2. rewrite bool_decide_eq_true_2 by (apply Hin; left).
  apply IH. intros y' Hy'. apply Hin. by right.
Qed.

Lemma foldl_Set_add_fresh ys set :
  NoDup (set ++ ys) -> foldl Arr.Set_add set ys = set ++ ys.
Proof.
  revert set. induction ys as [|y ys IH]; intros set Hnd; simpl.
  - by rewrite app_nil_r.
  - unfold Arr.Set_add at 2. rewrite bool_decide_eq_false_2.
    + rewrite IH; rewrite <- app_assoc; done.
    + apply NoDup_app in Hnd as (_ & Hdisj & _). intros Hy. apply (Hdisj y Hy). left.
Qed.

Lemma from_Set_app xs ys :
  Arr.from_Set (xs ++ ys) = foldl Arr.Set_add (Arr.from_Set xs) ys.
Proof. unfold Arr.from_Set. apply foldl_app. Qed.

Lemma from_Set_elem x xs : x ∈ Arr.from_Set xs <-> x ∈ xs.
Proof. by destruct (from_Set_first_seen xs) as (_ & Hmem & _). Qed.

Lemma from_Set_length xs : (length (Arr.from_Set xs) <= length xs)%nat.
Proof.
  destruct (from_Set_first_seen xs) as (Hnd & Hmem & _).
  apply submseteq_length, NoDup_submseteq; [done|].
  intros x. apply Hmem.
Qed.

End SetMore.

(** X10: the size of the date index.  extractDates returns the empty list
    exactly for the empty dataset, never more labels than the dataset has
    rows, and the Date column itself when no label occurs twice in it. *)
Theorem extractDates_size (records : Dataset) :
  let column := (fun r => Obj.get r "Date") <$> records in
  (extractDates records = [] <-> records = [])
  /\ (length (extractDates records) <= length records)%nat
  /\ (NoDup column -> extractDates records = column).
Proof.
  intros column. split; [|split].
  - split; [|by intros ->]. intros Hnil.
    destruct records as [|r records']; [done|].
    assert (Hin : Obj.get r "Date" ∈ extractDates (r :: records')).
    { apply from_Set_elem. left. }
    rewrite Hnil in Hin. by apply elem_of_nil in Hin.
  - unfold extractDates. etrans; [apply from_Set_length|]. by rewrite length_fmap.
  - intros Hnd. unfold extractDates. fold column.
    by apply (foldl_Set_add_fresh column []).
Qed.

(** X11: the date index grows at its end only.  When rows are appended to
    a dataset (a later month after the earlier ones), the index of the
    longer dataset starts with the index of the shorter one, label for
    label; and when every appended row carries a date the dataset already
    has, the index does not change. *)
Theorem extractDates_appended (data more : Dataset) :
  extractDates data `prefix_of` extractDates (data ++ more)
  /\ ((forall r, r ∈ more ->
         exists r0, r0 ∈ data /\ Obj.get r0 "Date" = Obj.get r "Date") ->
      extractDates (data ++ more) = extractDates data).
Proof.
  unfold extractDates. rewrite fmap_app, from_Set_app. split.
  - apply foldl_Set_add_prefix.
  - intros Hknown. apply foldl_Set_add_known.
    intros d (r & -> & Hr)%list_elem_of_fmap.
    destruct (Hknown r Hr) as (r0 & Hr0 & Heq). rewrite <- Heq.
    apply from_Set_elem.
    by apply (list_elem_of_fmap_2 (fun r => Obj.get r "Date")).
Qed.

(** ** The log throttle of the rate limiter *)

Lemma limiter_handler_cases now last :
  (now - last > 60 * 1000 /\ Limiter.handler now last = (now, true))
  \/ (now - last <= 60 * 1000 /\ Limiter.handler now last = (last, false)).
Proof.
  unfold Limiter.handler. case_bool_decide as Hgap; [left|right]; (split; [lia|done]).
Qed.

Lemma limiter_logged_sublist nows last :
  Limiter.logged nows last `sublist_of` nows.
Proof.
  revert last. induction nows as [|now rest IH]; intros last; simpl; [done|].
  destruct (limiter_handler_cases now last) as [[Hgap ->]|[Hgap ->]].
  - by apply sublist_skip.
  - by apply sublist_cons.
Qed.

(** X12: the line "Rate limit exceeded" is throttled.  For refused
    requests arriving at non-decreasing instants, none before the last
    logged one: only request instants are logged; any two logged instants,
    and the first logged one and the previous value of the variable, are
    more than 60 seconds apart; and every refused request comes at most 60
    seconds after a logged one (or after the previous value). *)
Theorem rate_limit_log_is_throttled nows last :
  StronglySorted Z.le (last :: nows) ->
  let logs := Limiter.logged nows last in
  logs `sublist_of` nows
  /\ StronglySorted (fun l l' => l' - l > 60 * 1000) (last :: logs)
  /\ (forall now, now ∈ nows ->
        exists l, l ∈ last :: logs /\ l <= now <= l + 60 * 1000).
Proof.
  revert last. induction nows as [|now rest IH]; intros last Hsorted; simpl.
  - split; [done|]. split; [by repeat constructor|]. by intros now ?%elem_of_nil.
  - apply StronglySorted_inv in Hsorted as [Hrest Hlast].
    apply Forall_cons in Hlast as [Hnow Hlast].
    destruct (limiter_handler_cases now last) as [[Hgap ->]|[Hgap ->]].
    + destruct (IH now Hrest) as (Hsub & Hgaps & Hcover).
      split; [by apply sublist_skip|]. split.
      * constructor; [done|]. constructor; [lia|].
        apply StronglySorted_inv in Hrest as [_ Hfrom].
        rewrite Forall_forall in Hfrom. apply Forall_forall. intros l Hl.
        apply (elem_of_sublist _ _ _ Hl) in Hsub. apply Hfrom in Hsub. lia.
      * intros x [->|Hx]%elem_of_cons.
        -- exists now. split; [right; left|lia].
        -- destruct (Hcover x Hx) as (l & Hl & Hbound).
           exists l. split; [by right|done].
    + assert (Hsorted' : StronglySorted Z.le (last :: rest)).
      { constructor; [by apply StronglySorted_inv in Hrest as [? _]|done]. }
      destruct (IH last Hsorted') as (Hsub & Hgaps & Hcover).
      split; [by apply sublist_cons|]. split; [done|].
      intros x [->|Hx]%elem_of_cons.
      * exists last. split; [left|lia].
      * by apply Hcover.
Qed.

Lemma rate_limit_log_is_throttled_witness :
  StronglySorted Z.le (0 :: [70000; 80000; 130000; 130001; 200000])
  /\ Limiter.logged [70000; 80000; 130000; 130001; 200000] 0 = [70000; 130001; 200000]
  /\ StronglySorted (fun l l' => l' - l > 60 * 1000)
       (0 :: Limiter.logged [70000; 80000; 130000; 130001; 200000] 0).
Proof.
  assert (Hs : StronglySorted Z.le (0 :: [70000; 80000; 130000; 130001; 200000])).
  { repeat (constructor; [|repeat constructor; lia]). constructor. }
  split; [exact Hs|]. split; [reflexivity|].
  exact (proj1 (proj2 (rate_limit_log_is_throttled _ _ Hs))).
Defined.

(** ** The names of the maturity columns *)

(** X13: which column names extractMaturities keeps.  A name passes the
    test of the pattern exactly when it contains, somewhere, a digit, then
    any number of digits, then any amount of white space, then "mo" or "yr"
    in upper or lower case; what comes before and after is free. *)
Theorem maturity_column_names (key : string) :
  is_maturity key = true <->
  exists pre d digits spaces u1 u2 post,
    RegExp.chars key = pre ++ (d :: digits ++ spaces ++ [u1; u2]) ++ post
    /\ RegExp.digit d = true
    /\ Forall (fun c => RegExp.digit c = true) digits
    /\ Forall (fun c => RegExp.space c = true) spaces
    /\ ((RegExp.letter_i "M" "m" u1 = true /\ RegExp.letter_i "O" "o" u2 = true) \/
        (RegExp.letter_i "Y" "y" u1 = true /\ RegExp.letter_i "R" "r" u2 = true)).
Proof. apply is_maturity_spec. Qed.

(** ** The client's date conversions *)

Lemma chars_app (s t : string) :
  RegExp.chars (s +:+ t) = RegExp.chars s ++ RegExp.chars t.
Proof.
  induction s as [|c s IH]; [done|].
  change (String c s +:+ t) with (String c (s +:+ t)). simpl. by rewrite IH.
Qed.

Lemma chars_inj (s t : string) : RegExp.chars s = RegExp.chars t -> s = t.
Proof.
  revert t. induction s as [|c s IH]; intros [|d t]; simpl; try done.
  intros [= -> Heq]. f_equal. by apply IH.
Qed.

Lemma split_plain sep (s : string) :
  sep ∉ RegExp.chars s -> Client.split sep s = [s].
Proof.
  induction s as [|c s IH]; simpl; [done|].
  intros [Hne Hnot]%not_elem_of_cons.
  rewrite bool_decide_eq_false_2 by congruence. by rewrite IH.
Qed.

Lemma split_at sep (a b : string) :
  sep ∉ RegExp.chars a ->
  Client.split sep (a +:+ String sep b) = a :: Client.split sep b.
Proof.
  induction a as [|c a IH]; simpl.
  - intros _. change ("" +:+ String sep b) with (String sep b). simpl.
    by rewrite bool_decide_eq_true_2.
  - intros [Hne Hnot]%not_elem_of_cons.
    change (String c a +:+ String sep b) with (String c (a +:+ String sep b)).
    simpl. rewrite bool_decide_eq_false_2 by congruence. by rewrite IH.
Qed.

Lemma plain_chars (part : string) :
  Client.plain part = true ->
  ("/"%char ∉ RegExp.chars part) /\ ("-"%char ∉ RegExp.chars part).
Proof.
  unfold Client.plain. rewrite forallb_forall. intros Hall.
  split; intros Hin%list_elem_of_In%Hall; by vm_compute in Hin.
Qed.

Lemma padStart_long (s : string) :
  (2 <= String.length s)%nat -> padStart 2 "0" s = s.
Proof.
  intros Hlen. unfold padStart.
  replace (2 - String.length s)%nat with O by lia. reflexivity.
Qed.

Lemma padStart_length (s : string) :
  (2 <= String.length (padStart 2 "0" s))%nat.
Proof.
  unfold padStart. rewrite string_length_app.
  destruct s as [|a [|b s]]; simpl; lia.
Qed.

Lemma chars_fill k c : RegExp.chars (fill k c) = replicate k c.
Proof. induction k as [|k IH]; simpl; by f_equal. Qed.

Lemma padStart_plain (s : string) :
  Client.plain s = true -> Client.plain (padStart 2 "0" s) = true.
Proof.
  unfold Client.plain, padStart. rewrite chars_app, chars_fill, forallb_app.
  intros ->. rewrite andb_true_r.
  induction (2 - String.length s)%nat as [|k IH]; [done|]. simpl. exact IH.
Qed.

(** A string that passes the test of the ISO pattern holds a dash. *)
Lemma iso_pattern_dash (s : string) :
  RegExp.test Client.iso_pattern s = true -> "-"%char ∈ RegExp.chars s.
Proof.
  intros (pre & mid & post & -> & Hmid)%test_lang.
  unfold Client.iso_pattern in Hmid.
  repeat match goal with
  | H : RegExp.lang (RegExp.Seq _ _) _ |- _ =>
      apply lang_seq_inv in H as (? & ? & -> & ? & ?)
  | H : RegExp.lang (RegExp.Class _) _ |- _ =>
      apply lang_class_inv in H as (? & -> & ?)
  end.
  match goal with
  | H : bool_decide (?c = "-"%char) = true |- _ =>
      apply bool_decide_eq_true in H; subst c
  end.
  simpl. rewrite !elem_of_app, !elem_of_cons. tauto.
Qed.

Lemma date_three_parts sep (a b c : string) :
  sep ∉ RegExp.chars a -> sep ∉ RegExp.chars b -> sep ∉ RegExp.chars c ->
  Client.split sep (a +:+ String sep (b +:+ String sep c)) = [a; b; c].
Proof.
  intros Ha Hb Hc. by rewrite !split_at, split_plain by done.
Qed.

(** [toISO] on a date of three plain parts. *)
Lemma toISO_parts (mm dd yyyy : string) :
  Client.plain mm = true -> Client.plain dd = true -> Client.plain yyyy = true ->
  Client.toISO (mm +:+ "/" +:+ dd +:+ "/" +:+ yyyy) =
  Return (yyyy +:+ "-" +:+ padStart 2 "0" mm +:+ "-" +:+ padStart 2 "0" dd).
Proof.
  intros [Hm1 Hm2]%plain_chars [Hd1 Hd2]%plain_chars [Hy1 Hy2]%plain_chars.
  unfold Client.toISO.
  destruct (RegExp.test _ _) eqn:Htest.
  { apply iso_pattern_dash in Htest.
    change (mm +:+ "/" +:+ dd +:+ "/" +:+ yyyy)
      with (mm +:+ String "/" (dd +:+ String "/" yyyy)) in Htest.
    rewrite !chars_app in Htest. simpl in Htest. rewrite !chars_app in Htest.
    simpl in Htest.
    rewrite !elem_of_app, !elem_of_cons, !elem_of_app, !elem_of_cons in Htest.
    destruct Htest as [?|[?|[?|[?|?]]]]; done. }
  change (mm +:+ "/" +:+ dd +:+ "/" +:+ yyyy)
    with (mm +:+ String "/" (dd +:+ String "/" yyyy)).
  by rewrite date_three_parts.
Qed.

(** [toBackendDate] on a date of three parts without dash. *)
Lemma toBackendDate_parts (yyyy mm dd : string) :
  "-"%char ∉ RegExp.chars yyyy -> "-"%char ∉ RegExp.chars mm ->
  "-"%char ∉ RegExp.chars dd ->
  Client.toBackendDate (yyyy +:+ "-" +:+ mm +:+ "-" +:+ dd) =
  mm +:+ "/" +:+ dd +:+ "/" +:+ yyyy.
Proof.
  intros Hy Hm Hd. unfold Client.toBackendDate.
  rewrite bool_decide_eq_false_2.
  - change (yyyy +:+ "-" +:+ mm +:+ "-" +:+ dd)
      with (yyyy +:+ String "-" (mm +:+ String "-" dd)).
    by rewrite date_three_parts.
  - intros Hnil. apply (f_equal String.length) in Hnil.
    change (yyyy +:+ "-" +:+ mm +:+ "-" +:+ dd)
      with (yyyy +:+ String "-" (mm +:+ String "-" dd)) in Hnil.
    rewrite string_length_app in Hnil. simpl in Hnil. lia.
Qed.

Lemma split_nonempty sep (s : string) : Client.split sep s <> [].
Proof.
  destruct s as [|c s]; simpl; [done|].
  case_bool_decide; [done|]. by destruct (Client.split sep s).
Qed.

Lemma split_second sep (s : string) :
  sep ∈ RegExp.chars s <-> exists part, Client.split sep s !! 1%nat = Some part.
Proof.
  induction s as [|c s IH]; simpl.
  - split; [by intros ?%elem_of_nil|by intros [? ?]].
  - rewrite elem_of_cons. case_bool_decide as Hc.
    + split; [|by left]. intros _.
      destruct (Client.split sep s) as [|w ws] eqn:Hs; [by apply split_nonempty in Hs|].
      by exists w.
    + destruct (Client.split sep s) as [|w ws] eqn:Hs; [by apply split_nonempty in Hs|].
      simpl in *. rewrite <- IH. split; [intros [?|?]; [congruence|done]|by right].
Qed.

(** X14: a date of the backend through the client and back.  For a label
    mm/dd/yyyy whose three parts hold no slash and no dash, toISO gives
    yyyy-mm-dd with month and day padded with zeros to two characters, and
    toBackendDate of that gives the padded label; it is the label the
    backend sent exactly when month and day have two characters or more. *)
Theorem backend_date_round_trip (mm dd yyyy : string) :
  Client.plain mm = true -> Client.plain dd = true -> Client.plain yyyy = true ->
  let d := mm +:+ "/" +:+ dd +:+ "/" +:+ yyyy in
  let iso := yyyy +:+ "-" +:+ padStart 2 "0" mm +:+ "-" +:+ padStart 2 "0" dd in
  Client.toISO d = Return iso
  /\ Client.toBackendDate iso =
     padStart 2 "0" mm +:+ "/" +:+ padStart 2 "0" dd +:+ "/" +:+ yyyy
  /\ (Client.toBackendDate iso = d <->
      (2 <= String.length mm)%nat /\ (2 <= String.length dd)%nat).
Proof.
  intros Hm Hd Hy d iso.
  pose proof (padStart_plain mm Hm) as Hpm. pose proof (padStart_plain dd Hd) as Hpd.
  assert (Hback : Client.toBackendDate iso =
            padStart 2 "0" mm +:+ "/" +:+ padStart 2 "0" dd +:+ "/" +:+ yyyy).
  { apply toBackendDate_parts; by apply plain_chars. }
  split; [by apply toISO_parts|]. split; [exact Hback|].
  rewrite Hback. split.
  - intros Heq. apply (f_equal (Client.split "/")) in Heq.
    unfold d in Heq.
    change (?a +:+ "/" +:+ ?b +:+ "/" +:+ ?c)
      with (a +:+ String "/" (b +:+ String "/" c)) in Heq.
    rewrite !date_three_parts in Heq by (by apply plain_chars).
    injection Heq as Hmm Hdd. split.
    + rewrite <- Hmm. apply padStart_length.
    + rewrite <- Hdd. apply padStart_length.
  - intros [Hlm Hld]. by rewrite !padStart_long.
Qed.

Lemma backend_date_round_trip_witness :
  Client.toISO "01/02/2025" = Return "2025-01-02"
  /\ Client.toBackendDate "2025-01-02" = "01/02/2025".
Proof.
  destruct (backend_date_round_trip "01" "02" "2025") as (Hiso & Hback & _);
    [reflexivity..|].
  exact (conj Hiso Hback).
Defined.

(** X15: a date of the date input through the backend form and back.
    For yyyy-mm-dd whose three parts hold no slash and no dash,
    toBackendDate gives mm/dd/yyyy, and toISO of that gives the date back
    when month and day have two characters or more (in general, the date
    with month and day padded). *)
Theorem input_date_round_trip (yyyy mm dd : string) :
  Client.plain yyyy = true -> Client.plain mm = true -> Client.plain dd = true ->
  let iso := yyyy +:+ "-" +:+ mm +:+ "-" +:+ dd in
  Client.toBackendDate iso = mm +:+ "/" +:+ dd +:+ "/" +:+ yyyy
  /\ Client.toISO (Client.toBackendDate iso) =
     Return (yyyy +:+ "-" +:+ padStart 2 "0" mm +:+ "-" +:+ padStart 2 "0" dd)
  /\ ((2 <= String.length mm)%nat -> (2 <= String.length dd)%nat ->
      Client.toISO (Client.toBackendDate iso) = Return iso).
Proof.
  intros Hy Hm Hd iso.
  assert (Hback : Client.toBackendDate iso = mm +:+ "/" +:+ dd +:+ "/" +:+ yyyy).
  { apply toBackendDate_parts; by apply plain_chars. }
  split; [exact Hback|]. rewrite Hback, toISO_parts by done.
  split; [done|]. intros Hlm Hld. by rewrite !padStart_long.
Qed.

Lemma input_date_round_trip_witness :
  Client.toISO (Client.toBackendDate "2025-02-18") = Return "2025-02-18".
Proof.
  destruct (input_date_round_trip "2025" "02" "18") as (_ & _ & Hround);
    [reflexivity..|].
  apply Hround; simpl; lia.
Defined.

(** X16: when toISO fails.  toISO throws (a TypeError, on the missing day)
    exactly for a label that holds no ISO date and no slash; every other
    label is converted or returned. *)
Theorem toISO_throws_without_slash (d : string) :
  (exists e, Client.toISO d = Throw e) <->
  RegExp.test Client.iso_pattern d = false /\ "/"%char ∉ RegExp.chars d.
Proof.
  unfold Client.toISO. destruct (RegExp.test Client.iso_pattern d).
  { split; [by intros [e ?]|by intros [? _]]. }
  destruct (Client.split "/" d) as [|mm parts] eqn:Hs; [by apply split_nonempty in Hs|].
  simpl. rewrite split_second, Hs. simpl.
  destruct parts as [|dd parts']; simpl.
  - split; [|by eexists]. intros _. split; [done|]. by intros [? ?].
  - split; [by intros [e ?]|]. intros [_ Hno]. destruct Hno. by eexists.
Qed.

(** ** The client and the backend together *)

Section ClientAndBackend.
Context {number : Type} (parseFloat : string -> number).

(** X17: a date the client offers is a date the backend finds.  If a row
    of the cached dataset is dated mm/dd/yyyy, the parts holding no slash
    and no dash and month and day having two characters or more, then the
    client's toISO converts the label, toBackendDate converts it back to the
    same label, and the yield-curve query for it is answered from the first
    row so dated: never 400 or 404, and 200 when that row has a maturity
    column. *)
Theorem client_date_is_served env sv data r (mm dd yyyy : string) :
  cachedData sv = Some data ->
  r ∈ data ->
  Obj.get r "Date" = Some (mm +:+ "/" +:+ dd +:+ "/" +:+ yyyy) ->
  Client.plain mm = true -> Client.plain dd = true -> Client.plain yyyy = true ->
  (2 <= String.length mm)%nat -> (2 <= String.length dd)%nat ->
  exists iso record reply,
    Client.toISO (mm +:+ "/" +:+ dd +:+ "/" +:+ yyyy) = Return iso
    /\ Client.toBackendDate iso = mm +:+ "/" +:+ dd +:+ "/" +:+ yyyy
    /\ Arr.find (fun r => bool_decide
                   (Obj.get r "Date" = Some (Client.toBackendDate iso))) data
       = Some record
    /\ get_yield_curve parseFloat (Some (Client.toBackendDate iso)) env sv
       = (sv, Fulfilled 0 reply)
    /\ status reply <> 400 /\ status reply <> 404
    /\ (List.filter is_maturity (Obj.keys record) <> [] -> status reply = 200).
Proof.
  intros Hdata Hr Hdate Hm Hd Hy Hlm Hld.
  set (d := mm +:+ "/" +:+ dd +:+ "/" +:+ yyyy) in *.
  set (iso := yyyy +:+ "-" +:+ padStart 2 "0" mm +:+ "-" +:+ padStart 2 "0" dd).
  assert (Hiso : Client.toISO d = Return iso) by by apply toISO_parts.
  assert (Hback : Client.toBackendDate iso = d).
  { unfold iso. rewrite toBackendDate_parts by (by apply plain_chars, padStart_plain || by apply plain_chars).
    by rewrite !padStart_long. }
  destruct (find_date_Some data d) as (record & Hfind & _ & _); [by exists r|].
  assert (Hne : d <> "").
  { intros Hnil. apply (f_equal String.length) in Hnil. unfold d in Hnil.
    change (mm +:+ "/" +:+ dd +:+ "/" +:+ yyyy)
      with (mm +:+ String "/" (dd +:+ String "/" yyyy)) in Hnil.
    rewrite string_length_app in Hnil. simpl in Hnil. lia. }
  exists iso, record. rewrite Hback.
  unfold get_yield_curve. rewrite bool_decide_eq_false_2 by done.
  rewrite (load_cachedData_cached _ _ _ Hdata). simpl. rewrite Hfind. simpl.
  destruct (List.filter is_maturity (Obj.keys record)) as [|m ms]; simpl.
  - eexists. repeat split; try done.
  - eexists. repeat split; try done.
Qed.

End ClientAndBackend.

Lemma client_date_is_served_witness :
  exists reply,
    get_yield_curve Sample.parseFloat
      (Some (Client.toBackendDate "2025-02-18")) Sample.env_down Sample.server_three
    = (Sample.server_three, Fulfilled 0 reply)
    /\ status reply = 200.
Proof.
  destruct (client_date_is_served Sample.parseFloat Sample.env_down Sample.server_three
              [Sample.row_jan; Sample.row_feb; Sample.row_plain] Sample.row_feb
              "02" "18" "2025")
    as (iso & record & reply & Hiso & Hback & Hfind & Hget & _ & _ & Hok);
    [reflexivity| |reflexivity..|simpl; lia|simpl; lia|].
  - rewrite !elem_of_cons. right. by left.
  - injection Hiso as <-. exists reply. split; [exact Hget|].
    apply Hok. vm_compute in Hfind. injection Hfind as <-.
    vm_compute. discriminate.
Defined.

(** ** The further theorems at the sample data *)

Lemma sample_started :
  bootstrap Sample.env_march initial_server =
  ((bootstrap Sample.env_march initial_server).1, Fulfilled 9 Listening).
Proof. vm_compute. reflexivity. Qed.

(** After the startup of March 2025, a refresh that downloads February
    alone and a dates query: the server still holds both rows. *)
Lemma served_snapshot_never_changes_witness :
  cachedData
    (act Sample.parseFloat (Request GetDates) Sample.env_down
       (act Sample.parseFloat RefreshTick Sample.env_later
          (bootstrap Sample.env_march initial_server).1))
  = Some [Sample.row_jan; Sample.row_feb].
Proof.
  destruct (served_snapshot_never_changes Sample.parseFloat Sample.env_march 9%nat
              (bootstrap Sample.env_march initial_server).1
              (act Sample.parseFloat (Request GetDates) Sample.env_down
                 (act Sample.parseFloat RefreshTick Sample.env_later
                    (bootstrap Sample.env_march initial_server).1)))
    as (data & Hdown & Hdata & _).
  - exact sample_started.
  - apply reaches_act, reaches_act, reaches_here.
  - rewrite Hdata. vm_compute in Hdown. by injection Hdown as <-.
Defined.

Lemma serving_bulk_queries_witness :
  @get_yield_curves (option (Z * nat)) Sample.env_down
    (bootstrap Sample.env_march initial_server).1
  = ((bootstrap Sample.env_march initial_server).1,
     Fulfilled 0 (json (JsonData [Sample.row_jan; Sample.row_feb]
                          [Some "01/02/2025"; Some "02/18/2025"]))).
Proof.
  destruct (serving_bulk_queries Sample.parseFloat Sample.env_down
              (bootstrap Sample.env_march initial_server).1)
    as (data & _ & Hdata & _ & _ & Hall).
  - apply (serving_started Sample.parseFloat Sample.env_march 9%nat). exact sample_started.
  - vm_compute in Hdata. injection Hdata as <-. exact Hall.
Defined.

Lemma serving_query_ignores_world_witness :
  handle Sample.parseFloat (GetYieldCurve (Some "02/18/2025")) Sample.env_march
    (bootstrap Sample.env_march initial_server).1
  = handle Sample.parseFloat (GetYieldCurve (Some "02/18/2025")) Sample.env_stalled
      (bootstrap Sample.env_march initial_server).1.
Proof.
  apply serving_query_ignores_world.
  apply (serving_started Sample.parseFloat Sample.env_march 9%nat). exact sample_started.
Defined.

(** ** The enumeration as time passes *)

(** X18: the enumeration only grows at its end.  For two clock readings,
    the earlier one's list of month tokens is a prefix of the later one's,
    and the list has one token per month from January 2025 to the reading
    (none before 2025). *)
Theorem getAllMonths_grows (now later : Date) :
  valid_date now -> valid_date later ->
  month_index (getFullYear now) (getMonth now)
    <= month_index (getFullYear later) (getMonth later) ->
  getAllMonths now `prefix_of` getAllMonths later
  /\ length (getAllMonths now) =
     Z.to_nat (month_index (getFullYear now) (getMonth now) - month_index 2025 0 + 1).
Proof.
  intros Hv Hv' Hle. rewrite !getAllMonths_tokens by done. split.
  - set (n := month_index (getFullYear now) (getMonth now) - month_index 2025 0 + 1).
    set (n' := month_index (getFullYear later) (getMonth later) - month_index 2025 0 + 1).
    destruct (decide (n <= 0)) as [Hn|Hn].
    + rewrite (seqZ_nil _ n) by done. apply prefix_nil.
    + replace n' with (n + (n' - n)) by lia.
      rewrite seqZ_app by (unfold n, n'; lia). rewrite fmap_app.
      by apply prefix_app_r.
  - by rewrite length_fmap, length_seqZ.
Qed.

Lemma getAllMonths_grows_witness :
  getAllMonths (mkDate 2025 1) `prefix_of` getAllMonths (mkDate 2026 0)
  /\ length (getAllMonths (mkDate 2025 1)) = 2%nat.
Proof.
  destruct (getAllMonths_grows (mkDate 2025 1) (mkDate 2026 0)) as [Hpre Hlen].
  - unfold valid_date. simpl. lia.
  - unfold valid_date. simpl. lia.
  - unfold month_index. simpl. lia.
  - split; [exact Hpre|]. rewrite Hlen. reflexivity.
Defined.

(** ** A query on an empty cache *)

Section ColdCache.
Context {number : Type} (parseFloat : string -> number).

(** X19: on a server whose two variables are unset, the dates query and
    the yield-curves query leave in them exactly what the startup code
    would leave in the same world: the downloaded dataset and its date
    index when the download succeeds, nothing when it fails or never
    completes.  The yield-curve query with a date leaves the same dataset
    and no date index. *)
Theorem cold_cache_query_installs env sv :
  cachedData sv = None -> cachedDates sv = None ->
  snapshot (@get_dates number env sv).1 = snapshot (bootstrap env sv).1
  /\ snapshot (@get_yield_curves number env sv).1 = snapshot (bootstrap env sv).1
  /\ (forall date, date <> "" ->
        cachedData (get_yield_curve parseFloat (Some date) env sv).1
          = cachedData (bootstrap env sv).1
        /\ cachedDates (get_yield_curve parseFloat (Some date) env sv).1 = None).
Proof.
  intros Hdata Hdates. rewrite bootstrap_cases. cbv zeta.
  unfold get_dates, get_yield_curves, get_yield_curve, load_cachedData.
  rewrite Hdata.
  destruct (fetchAndParseCSV false env sv) as [sv1 p] eqn:Hf.
  assert (Hsv1 : sv1 = (fetchAndParseCSV false env sv).1) by by rewrite Hf.
  assert (Hp : (fetchAndParseCSV true env sv).2 = p) by (change (fetchAndParseCSV true env sv) with (fetchAndParseCSV false env sv); by rewrite Hf).
  rewrite fetchAndParseCSV_server in Hsv1. rewrite Hp.
  assert (Hd1 : cachedDates sv1 = None) by by rewrite Hsv1.
  assert (Hc1 : cachedData sv1 = None) by by rewrite Hsv1.
  destruct p as [t data|t e|]; simpl.
  - unfold load_cachedDates. simpl. rewrite Hd1. simpl.
    split; [by destruct (Nat.eqb _ 0)|]. split; [by destruct (Nat.eqb _ 0)|].
    intros date Hne. rewrite bool_decide_eq_false_2 by done. simpl.
    destruct (Arr.find _ data) as [record|]; simpl; [|done].
    by destruct (Nat.eqb (length (List.filter is_maturity (Obj.keys record))) 0).
  - split; [by rewrite Hsv1|]. split; [by rewrite Hsv1|].
    intros date Hne. rewrite bool_decide_eq_false_2 by done. by rewrite Hsv1.
  - split; [by rewrite Hsv1|]. split; [by rewrite Hsv1|].
    intros date Hne. rewrite bool_decide_eq_false_2 by done. by rewrite Hsv1.
Qed.

End ColdCache.

Lemma cold_cache_query_installs_witness :
  snapshot (@get_dates (option (Z * nat)) Sample.env_march initial_server).1
  = (Some [Sample.row_jan; Sample.row_feb], Some [Some "01/02/2025"; Some "02/18/2025"]).
Proof.
  destruct (cold_cache_query_installs Sample.parseFloat Sample.env_march initial_server)
    as [Hdates _]; [reflexivity..|].
  rewrite Hdates. vm_compute. reflexivity.
Defined.
